(** * The tty driver of the teaching kernel (tty.c, tty.h)

    A shallow embedding of the serial-line driver: the three global byte
    queues, the per-line [struct tty], the entry points [ttyinit],
    [ttyread], [ttywrite], [ttycontrol] and the interrupt handler
    [irqinthandc], followed by the properties of the driver.

    The driver runs on one CPU.  The entry points run in the foreground;
    the handlers run when the CPU accepts an interrupt, which it does only
    while the interrupt flag of EFLAGS is set.  The embedding makes this
    explicit: the driver is written in a state monad over [state], every
    hardware access and every queue operation is appended to a trace, and
    the places where the foreground can be interrupted are the calls of
    [window], which runs the handlers the environment has pending.

    Conventions.  An [int] is a [Z]; the additions of the driver are on
    port numbers, IRQ numbers and loop indices below [nchar] and do not
    overflow, so no wrap-around is written.  A character is the [Z] the
    UART delivered; the driver only moves characters, and the conversions
    between [int] and [char] are left out.  A statement of C is one step:
    an interrupt is taken between two statements, never inside a queue
    operation.  A busy-wait loop is given fuel, one unit per pass, and is
    [Spinning] when the fuel is used up before the loop is left. *)

From Stdlib Require Import ZArith Lia.
From stdpp Require Import base list option.

Local Open Scope Z_scope.

(** ** Constants and tables of the platform

    [serial.h], [cpu.h], [pic.h], [ioconf.h], [tty_public.h] and
    [queue/queue.h] give the register offsets, bit masks, port addresses,
    IRQ numbers, device numbers and the device table.  They are not part
    of the driver source, so the driver is embedded over an arbitrary
    choice of them. *)

(** One row of [devtab]: the base port of the UART and [dvdata], the
    pointer to the line's [struct tty], kept as the index of that struct
    in [ttytab]. *)
Record device := { dvbaseport : Z; dvdata : Z }.

Class platform := {
  UART_RX : Z;
  UART_TX : Z;
  UART_IER : Z;
  UART_IIR : Z;
  UART_IER_RDI : Z;
  UART_IER_THRI : Z;
  UART_IIR_ID : Z;
  UART_IIR_RDI : Z;
  UART_IIR_THRI : Z;
  COM1_BASE : Z;
  COM2_BASE : Z;
  COM1_IRQ : Z;
  COM2_IRQ : Z;
  IRQ_TO_INT_N_SHIFT : Z;
  ECHOCONTROL : Z;
  TTY0 : Z;
  TTY1 : Z;
  EMPTYQUE_int : Z;
  devtab : list device
}.

(** The values of the PC the kernel is written for: a 16550 UART at
    0x3f8 (IRQ 4) and one at 0x2f8 (IRQ 3), and a device table with the
    two lines.  Used wherever a property is evaluated on a concrete
    machine. *)
Definition sapc : platform := {|
  UART_RX := 0;
  UART_TX := 0;
  UART_IER := 1;
  UART_IIR := 2;
  UART_IER_RDI := 1;
  UART_IER_THRI := 2;
  UART_IIR_ID := 6;
  UART_IIR_RDI := 4;
  UART_IIR_THRI := 2;
  COM1_BASE := 1016;
  COM2_BASE := 760;
  COM1_IRQ := 4;
  COM2_IRQ := 3;
  IRQ_TO_INT_N_SHIFT := 32;
  ECHOCONTROL := 1;
  TTY0 := 0;
  TTY1 := 1;
  EMPTYQUE_int := -1;
  devtab := [ {| dvbaseport := 1016; dvdata := 0 |};
              {| dvbaseport := 760; dvdata := 1 |} ]
|}.

(** tty.h *)
Definition MAXBUF : Z := 6.

Record tty := { echoflag : Z }.

(** The interrupt flag is bit 9 of EFLAGS. *)
Definition IF_BIT : Z := 9.

(** ** The bounded queue *)

(** Modelled from the spec: the [Queue] type of queue/queue.h, which is
    not among the sources.  A queue has a fixed capacity and holds its
    bytes in arrival order, oldest first. *)
Record Queue := { capacity : Z; contents : list Z }.

(** Modelled from the spec: [init_queue] of queue/queue.h, "resets queue
    to empty with the given capacity". *)
Definition init_queue (n : Z) : Queue := {| capacity := n; contents := [] |}.

(** Modelled from the spec: [queuecount] of queue/queue.h, "current
    occupancy". *)
Definition queuecount (q : Queue) : Z := Z.of_nat (length (contents q)).

(** Modelled from the spec: the result of [enqueue], success or
    [FULLQUE]. *)
Inductive enq_result := Enqueued | FULLQUE.

(** Modelled from the spec: [enqueue] of queue/queue.h, "succeeds and
    appends at tail if count < capacity; otherwise fails with QueueFull";
    a full queue is left as it is. *)
Definition enqueue (q : Queue) (ch : Z) : enq_result * Queue :=
  if queuecount q <? capacity q
  then (Enqueued, {| capacity := capacity q; contents := contents q ++ [ch] |})
  else (FULLQUE, q).

(** Modelled from the spec: the result of [dequeue], a byte or
    [EMPTYQUE]. *)
Inductive deq_result := Byte (ch : Z) | EMPTYQUE.

(** Modelled from the spec: [dequeue] of queue/queue.h, "succeeds and
    removes from head if count > 0; otherwise fails with QueueEmpty"; an
    empty queue is left as it is. *)
Definition dequeue (q : Queue) : deq_result * Queue :=
  match contents q with
  | [] => (EMPTYQUE, q)
  | ch :: rest => (Byte ch, {| capacity := capacity q; contents := rest |})
  end.

(** The [int] a C caller sees when it uses the result of [dequeue] as a
    value. *)
Definition deq_int `{platform} (r : deq_result) : Z :=
  match r with Byte ch => ch | EMPTYQUE => EMPTYQUE_int end.

(** ** Machine state and trace *)

(** The three global queues, named by their address. *)
Inductive qref := InQ | OutQ | EchoQ.

(** The assembler shells installed in the interrupt table. *)
Inductive shell := irq3inthand | irq4inthand.

Inductive event :=
| Inpt (port v : Z)
| Outpt (port v : Z)
| Cli
| Sti
| SetEflags (v : Z)
| Enq (q : qref) (ch : Z) (r : enq_result)
| Deq (q : qref) (r : deq_result)
| SetIntrGate (n : Z) (h : shell)
| PicEnableIrq (irq : Z)
| PicEndInt
| Kprintf (dev : Z).

(** Who is running: an entry point or an interrupt handler. *)
Inductive context := Foreground | Handler.

Record state := {
  inQueue : Queue;
  outQueue : Queue;
  echoQueue : Queue;
  ttytab : list tty;
  debug_record : list Z;
  eflags : Z;
  running : context;
  clock : nat;
  trace : list (context * event)
}.

Definition queue_of (q : qref) (s : state) : Queue :=
  match q with InQ => inQueue s | OutQ => outQueue s | EchoQ => echoQueue s end.

Definition set_queue (q : qref) (v : Queue) (s : state) : state :=
  {| inQueue := match q with InQ => v | _ => inQueue s end;
     outQueue := match q with OutQ => v | _ => outQueue s end;
     echoQueue := match q with EchoQ => v | _ => echoQueue s end;
     ttytab := ttytab s; debug_record := debug_record s; eflags := eflags s;
     running := running s; clock := clock s; trace := trace s |}.

Definition set_ttytab (v : list tty) (s : state) : state :=
  {| inQueue := inQueue s; outQueue := outQueue s; echoQueue := echoQueue s;
     ttytab := v; debug_record := debug_record s; eflags := eflags s;
     running := running s; clock := clock s; trace := trace s |}.

Definition set_debug_record (v : list Z) (s : state) : state :=
  {| inQueue := inQueue s; outQueue := outQueue s; echoQueue := echoQueue s;
     ttytab := ttytab s; debug_record := v; eflags := eflags s;
     running := running s; clock := clock s; trace := trace s |}.

Definition write_eflags (v : Z) (s : state) : state :=
  {| inQueue := inQueue s; outQueue := outQueue s; echoQueue := echoQueue s;
     ttytab := ttytab s; debug_record := debug_record s; eflags := v;
     running := running s; clock := clock s; trace := trace s |}.

Definition set_running (v : context) (s : state) : state :=
  {| inQueue := inQueue s; outQueue := outQueue s; echoQueue := echoQueue s;
     ttytab := ttytab s; debug_record := debug_record s; eflags := eflags s;
     running := v; clock := clock s; trace := trace s |}.

Definition tick (s : state) : state :=
  {| inQueue := inQueue s; outQueue := outQueue s; echoQueue := echoQueue s;
     ttytab := ttytab s; debug_record := debug_record s; eflags := eflags s;
     running := running s; clock := S (clock s); trace := trace s |}.

Definition log_event (e : event) (s : state) : state :=
  {| inQueue := inQueue s; outQueue := outQueue s; echoQueue := echoQueue s;
     ttytab := ttytab s; debug_record := debug_record s; eflags := eflags s;
     running := running s; clock := clock s;
     trace := trace s ++ [(running s, e)] |}.

(** ** The monad of the driver

    A routine either returns, or indexes a table outside its bounds
    ([Fault], undefined behaviour in C), or is still in its busy-wait
    loop when the fuel given to it runs out ([Spinning]). *)

Inductive outcome (A : Type) : Type :=
| Ret (a : A) (s : state)
| Fault
| Spinning.

Arguments Ret {A} a s.
Arguments Fault {A}.
Arguments Spinning {A}.

Definition M (A : Type) : Type := state -> outcome A.

Definition ret {A} (a : A) : M A := fun s => Ret a s.

Definition bind {A B} (m : M A) (k : A -> M B) : M B :=
  fun s => match m s with
           | Ret a s' => k a s'
           | Fault => Fault
           | Spinning => Spinning
           end.

Notation "x <- m ;; k" := (bind m (fun x => k))
  (at level 100, m at next level, right associativity).
Notation "m ;; k" := (bind m (fun _ => k))
  (at level 100, right associativity).

Definition fault {A} : M A := fun _ => Fault.
Definition spin {A} : M A := fun _ => Spinning.
Definition modify (f : state -> state) : M unit := fun s => Ret tt (f s).
Definition emit (e : event) : M unit := modify (log_event e).
Definition lift {A} (o : option A) : M A :=
  match o with Some a => ret a | None => fault end.

(** [a[i]] for an [int] index: outside the array there is no element. *)
Definition at_index {A} (l : list A) (i : Z) : option A :=
  if i <? 0 then None else l !! Z.to_nat i.

(** [a[i] = x] for an [int] index. *)
Definition store_index {A} (l : list A) (i : Z) (x : A) : option (list A) :=
  if (0 <=? i) && (i <? Z.of_nat (length l))
  then Some (<[Z.to_nat i := x]> l) else None.

Arguments at_index : simpl never.
Arguments store_index : simpl never.

(** ** The driver *)

(** An interrupt request: the line that raises it and what the UART's
    registers return when the handler reads them. *)
Inductive irq_line := IRQ3 | IRQ4.

Record interrupt := { irq : irq_line; ports : Z -> Z }.

Section Driver.
Context `{platform}.

(** *** CPU, ports, interrupt controller, console *)

Definition get_eflags : M Z := fun s => Ret (eflags s) s.

Definition cli : M unit :=
  emit Cli;; modify (fun s => write_eflags (Z.clearbit (eflags s) IF_BIT) s).

Definition sti : M unit :=
  emit Sti;; modify (fun s => write_eflags (Z.setbit (eflags s) IF_BIT) s).

Definition set_eflags (v : Z) : M unit :=
  emit (SetEflags v);; modify (write_eflags v).

Definition inpt (rd : Z -> Z) (port : Z) : M Z :=
  emit (Inpt port (rd port));; ret (rd port).

Definition outpt (port v : Z) : M unit := emit (Outpt port v).

Definition set_intr_gate (n : Z) (h : shell) : M unit := emit (SetIntrGate n h).

Definition pic_enable_irq (n : Z) : M unit := emit (PicEnableIrq n).

Definition pic_end_int : M unit := emit PicEndInt.

(** [kprintf("Bad TTY device table entry, dev %d\n", dev)] *)
Definition kprintf_bad_entry (dev : Z) : M unit := emit (Kprintf dev).

(** *** The global queues *)

Definition init_queue_at (q : qref) (n : Z) : M unit :=
  modify (set_queue q (init_queue n)).

Definition enqueue_at (q : qref) (ch : Z) : M enq_result :=
  fun s => Ret (fst (enqueue (queue_of q s) ch))
               (log_event (Enq q ch (fst (enqueue (queue_of q s) ch)))
                  (set_queue q (snd (enqueue (queue_of q s) ch)) s)).

Definition dequeue_at (q : qref) : M deq_result :=
  fun s => Ret (fst (dequeue (queue_of q s)))
               (log_event (Deq q (fst (dequeue (queue_of q s))))
                  (set_queue q (snd (dequeue (queue_of q s))) s)).

Definition queuecount_at (q : qref) : M Z :=
  fun s => Ret (queuecount (queue_of q s)) s.

(** *** The debug log *)

(** The characters of a C string: those before the first NUL. *)
Fixpoint c_string (msg : list Z) : list Z :=
  match msg with
  | [] => []
  | c :: rest => if c =? 0 then [] else c :: c_string rest
  end.

(** [strcpy(debug_record, msg); debug_record += strlen(msg)]: the state
    keeps the characters written since the log was last cleared. *)
Definition debug_log (msg : list Z) : M unit :=
  modify (fun s => set_debug_record (debug_record s ++ c_string msg) s).

(** *** Device table and line data *)

(** [devtab[dev]] *)
Definition devtab_entry (dev : Z) : M device := lift (at_index devtab dev).

(** [tty->echoflag] *)
Definition load_echoflag (tty : Z) : M Z :=
  fun s => match at_index (ttytab s) tty with
           | Some t => Ret (echoflag t) s
           | None => Fault
           end.

(** [tty->echoflag = v] *)
Definition store_echoflag (tty : Z) (v : Z) : M unit :=
  fun s => match store_index (ttytab s) tty {| echoflag := v |} with
           | Some tab => Ret tt (set_ttytab tab s)
           | None => Fault
           end.

(** *** ttyinit *)

Definition ttyinit (dev : Z) : M unit :=
  init_queue_at InQ MAXBUF;;
  init_queue_at OutQ MAXBUF;;
  init_queue_at EchoQ MAXBUF;;
  modify (set_debug_record []);;
  d <- devtab_entry dev;;
  let baseport := dvbaseport d in
  let tty := dvdata d in
  let arm : M unit :=
    store_echoflag tty 1;;
    outpt (baseport + UART_IER) UART_IER_RDI in
  if baseport =? COM1_BASE then
    set_intr_gate (COM1_IRQ + IRQ_TO_INT_N_SHIFT) irq4inthand;;
    pic_enable_irq COM1_IRQ;;
    arm
  else if baseport =? COM2_BASE then
    set_intr_gate (COM2_IRQ + IRQ_TO_INT_N_SHIFT) irq3inthand;;
    pic_enable_irq COM2_IRQ;;
    arm
  else
    kprintf_bad_entry dev.

(** *** ttycontrol *)

Definition ttycontrol (dev fncode val : Z) : M Z :=
  d <- devtab_entry dev;;
  let this_tty := dvdata d in
  if fncode =? ECHOCONTROL then
    store_echoflag this_tty val;;
    ret 0
  else ret (-1).

(** *** The interrupt handlers *)

(** The body of [case UART_IIR_THRI:]. *)
Definition transmit_case (baseport : Z) : M unit :=
  n <- queuecount_at EchoQ;;
  (if n =? 0 then ret tt
   else r <- dequeue_at EchoQ;; outpt (baseport + UART_TX) (deq_int r));;
  m <- queuecount_at OutQ;;
  (if m =? 0 then ret tt
   else r <- dequeue_at OutQ;; outpt (baseport + UART_TX) (deq_int r)).

(** The body of [case UART_IIR_RDI:] up to the next case label. *)
Definition receive_case (baseport tty : Z) (rd : Z -> Z) : M unit :=
  ch <- inpt rd (baseport + UART_RX);;
  enqueue_at InQ ch;;
  e <- load_echoflag tty;;
  (if e =? 0 then ret tt else enqueue_at EchoQ ch;; ret tt).

(** [rd] is what the UART's registers return during this invocation.
    The switch has no [break] after the receive case, so control runs on
    into the transmit case. *)
Definition irqinthandc (rd : Z -> Z) (dev : Z) : M unit :=
  d <- devtab_entry dev;;
  let tty := dvdata d in
  let baseport := dvbaseport d in
  iir <- inpt rd (baseport + UART_IIR);;
  pic_end_int;;
  debug_log [42];;
  (if Z.land iir UART_IIR_ID =? UART_IIR_RDI then
     receive_case baseport tty rd;;
     transmit_case baseport
   else if Z.land iir UART_IIR_ID =? UART_IIR_THRI then
     transmit_case baseport
   else
     debug_log [35]);;
  outpt (baseport + UART_IER) UART_IER_RDI.

Definition irq4inthandc (rd : Z -> Z) : M unit := irqinthandc rd TTY0.

Definition irq3inthandc (rd : Z -> Z) : M unit := irqinthandc rd TTY1.

(** *** Interrupts arriving during a call *)

Definition dispatch (i : interrupt) : M unit :=
  match irq i with
  | IRQ4 => irq4inthandc (ports i)
  | IRQ3 => irq3inthandc (ports i)
  end.

Fixpoint service (l : list interrupt) : M unit :=
  match l with
  | [] => ret tt
  | i :: rest => dispatch i;; service rest
  end.

(** The environment: the requests that are pending at each moment the
    foreground can be interrupted. *)
Variable env : nat -> list interrupt.

(** A point of the foreground code where an interrupt can be taken.  With
    the interrupt flag clear nothing happens and the requests stay
    pending; with the flag set the pending handlers run to completion and
    the foreground resumes with its registers, EFLAGS included, as they
    were. *)
Definition window : M unit :=
  fun s =>
    if Z.testbit (eflags s) IF_BIT
    then (modify (set_running Handler);;
          service (env (clock s));;
          modify (set_running (running s));;
          modify tick) s
    else Ret tt s.

(** *** ttyread *)

(** One pass through the body of the [while] loop per unit of fuel.
    [buf[i] = ch] outside the caller's buffer is a fault. *)
Fixpoint ttyread_loop (fuel : nat) (buf : list Z) (i nchar : Z) : M (list Z) :=
  if i <? nchar then
    match fuel with
    | O => spin
    | S fuel' =>
        saved_eflags <- get_eflags;;
        cli;;
        ch <- dequeue_at InQ;;
        r <- match ch with
             | Byte c =>
                 buf' <- lift (store_index buf i c);;
                 debug_log [62; c; 0];;
                 ret (buf', i + 1)
             | EMPTYQUE => ret (buf, i)
             end;;
        set_eflags saved_eflags;;
        window;;
        ttyread_loop fuel' (fst r) (snd r) nchar
    end
  else ret buf.

Definition ttyread (fuel : nat) (dev : Z) (buf : list Z) (nchar : Z) : M (Z * list Z) :=
  buf' <- ttyread_loop fuel buf 0 nchar;;
  ret (nchar, buf').

(** *** ttywrite *)

(** After the first [sti] the loop runs with interrupts enabled, so the
    handlers can also run between the statements of the body. *)
Fixpoint ttywrite_loop (fuel : nat) (baseport : Z) (buf : list Z) (i nchar : Z) : M unit :=
  if i <? nchar then
    match fuel with
    | O => spin
    | S fuel' =>
        c <- lift (at_index buf i);;
        r <- enqueue_at OutQ c;;
        window;;
        i' <- match r with
              | Enqueued =>
                  outpt (baseport + UART_IER) UART_IER_THRI;;
                  window;;
                  debug_log [60; c; 0];;
                  ret (i + 1)
              | FULLQUE => ret i
              end;;
        sti;;
        window;;
        ttywrite_loop fuel' baseport buf i' nchar
    end
  else ret tt.

Definition ttywrite (fuel : nat) (dev : Z) (buf : list Z) (nchar : Z) : M Z :=
  d <- devtab_entry dev;;
  let baseport := dvbaseport d in
  cli;;
  ttywrite_loop fuel baseport buf 0 nchar;;
  ret nchar.

End Driver.

(** ** Reading a trace *)

#[global] Instance qref_eq_dec : EqDecision qref.
Proof. solve_decision. Defined.

(** The events of the entry points, without those of the handlers. *)
Definition foreground (tr : list (context * event)) : list event :=
  omap (fun ce => match fst ce with Foreground => Some (snd ce) | Handler => None end) tr.

(** The bytes a queue accepted, in order. *)
Definition accepted (q : qref) (tr : list (context * event)) : list Z :=
  omap (fun ce => match snd ce with
                  | Enq q' ch Enqueued => if decide (q' = q) then Some ch else None
                  | _ => None
                  end) tr.

(** The bytes taken out of a queue, in order. *)
Definition removed (q : qref) (tr : list (context * event)) : list Z :=
  omap (fun ce => match snd ce with
                  | Deq q' (Byte ch) => if decide (q' = q) then Some ch else None
                  | _ => None
                  end) tr.

(** The values written to one port, in order. *)
Definition written (port : Z) (tr : list (context * event)) : list Z :=
  omap (fun ce => match snd ce with
                  | Outpt p v => if p =? port then Some v else None
                  | _ => None
                  end) tr.

(** Replays a sequence of events from the EFLAGS value [ef] and tells
    whether every queue operation in it runs with the interrupt flag
    clear. *)
Fixpoint masked_queue_ops (ef : Z) (tr : list event) : bool :=
  match tr with
  | [] => true
  | Cli :: rest => masked_queue_ops (Z.clearbit ef IF_BIT) rest
  | Sti :: rest => masked_queue_ops (Z.setbit ef IF_BIT) rest
  | SetEflags v :: rest => masked_queue_ops v rest
  | Enq _ _ _ :: rest | Deq _ _ :: rest =>
      negb (Z.testbit ef IF_BIT) && masked_queue_ops ef rest
  | _ :: rest => masked_queue_ops ef rest
  end.

(** What the foreground of [ttywrite] does for the bytes [bs] after its
    opening [cli]: every byte is offered to the transmit queue until the
    queue takes it, the interrupt-enable register is written once the
    byte is in, and [sti] ends each attempt. *)
Inductive write_protocol (ier thri : Z) : list Z -> list event -> Prop :=
| write_done : write_protocol ier thri [] []
| write_retry b bs tr :
    write_protocol ier thri (b :: bs) tr ->
    write_protocol ier thri (b :: bs) (Enq OutQ b FULLQUE :: Sti :: tr)
| write_accept b bs tr :
    write_protocol ier thri bs tr ->
    write_protocol ier thri (b :: bs)
      (Enq OutQ b Enqueued :: Outpt ier thri :: Sti :: tr).

(** The queues a line works on.  The driver has one [inQueue], one
    [outQueue] and one [echoQueue]; every routine uses them whatever its
    [dev] argument is. *)
Definition line_queues (dev : Z) (s : state) : Queue * Queue * Queue :=
  (inQueue s, outQueue s, echoQueue s).

(** The driver's own data: queues, line structs and debug log. *)
Definition driver_data (s : state) : Queue * Queue * Queue * list tty * list Z :=
  (inQueue s, outQueue s, echoQueue s, ttytab s, debug_record s).

(** Both lines have a row in [devtab] and a [struct tty] behind it, so
    that the handlers stay inside the tables. *)
Definition lines_ok `{platform} (s : state) : Prop :=
  forall dev, dev = TTY0 \/ dev = TTY1 ->
    exists d t, at_index devtab dev = Some d /\ at_index (ttytab s) (dvdata d) = Some t.

(** ** Relations between the state before and after a step *)

(** What a handler may do: it leaves the line structs, EFLAGS, the clock
    and the capacities alone, logs under the running context, never
    takes a byte out of the receive queue, never puts one into the
    transmit queue, and every queue changes exactly by the bytes the
    trace says went in and out. *)
Record handler_step (s s' : state) : Prop := {
  hs_ttytab : ttytab s' = ttytab s;
  hs_eflags : eflags s' = eflags s;
  hs_clock : clock s' = clock s;
  hs_running : running s' = running s;
  hs_capacity : forall q, capacity (queue_of q s') = capacity (queue_of q s);
  hs_trace : exists tr,
    trace s' = trace s ++ tr /\
    Forall (fun ce => fst ce = running s) tr /\
    removed InQ tr = [] /\
    accepted OutQ tr = [] /\
    forall q, contents (queue_of q s) ++ accepted q tr
              = removed q tr ++ contents (queue_of q s')
}.

(** What the foreground sees of a window. *)
Record interference (s s' : state) : Prop := {
  if_ttytab : ttytab s' = ttytab s;
  if_eflags : eflags s' = eflags s;
  if_running : running s' = running s;
  if_capacity : forall q, capacity (queue_of q s') = capacity (queue_of q s);
  if_trace : exists tr,
    trace s' = trace s ++ tr /\
    foreground tr = [] /\
    removed InQ tr = [] /\
    accepted OutQ tr = [] /\
    forall q, contents (queue_of q s) ++ accepted q tr
              = removed q tr ++ contents (queue_of q s')
}.

(** A computation keeps a relation when every return satisfies it. *)
Definition keeps (R : state -> state -> Prop) {A} (m : M A) : Prop :=
  forall s a s', m s = Ret a s' -> R s s'.

(** A computation runs from a state when it returns. *)
Definition runs {A} (m : M A) (s : state) : Prop :=
  exists a s', m s = Ret a s'.

(** ** Concrete machines *)

(** The machine at power-on: nothing initialised, interrupts enabled. *)
Definition boot : state := {|
  inQueue := init_queue 0; outQueue := init_queue 0; echoQueue := init_queue 0;
  ttytab := [ {| echoflag := 0 |}; {| echoflag := 0 |} ];
  debug_record := []; eflags := 512; running := Foreground; clock := 0;
  trace := []
|}.

(** A state with given queue contents, both lines echoing. *)
Definition with_queues (rx tx echo : list Z) : state := {|
  inQueue := {| capacity := MAXBUF; contents := rx |};
  outQueue := {| capacity := MAXBUF; contents := tx |};
  echoQueue := {| capacity := MAXBUF; contents := echo |};
  ttytab := [ {| echoflag := 1 |}; {| echoflag := 1 |} ];
  debug_record := []; eflags := 512; running := Foreground; clock := 0;
  trace := []
|}.

(** The same machine at the moment a handler has been entered. *)
Definition in_handler (rx tx echo : list Z) : state :=
  set_running Handler (with_queues rx tx echo).

(** UART registers of a line at [base] (offsets of [sapc]) reporting the
    interrupt identification [iir] and holding the byte [rx]. *)
Definition uart (base iir rx : Z) : Z -> Z :=
  fun port => if port =? base + 2 then iir else if port =? base then rx else 0.

(** Nothing ever interrupts. *)
Definition silence : nat -> list interrupt := fun _ => [].

(** The bytes of [l] arrive on COM1, one receive interrupt per window. *)
Definition typing (l : list Z) : nat -> list interrupt :=
  fun k => match l !! k with
           | Some c => [ {| irq := IRQ4; ports := uart 1016 4 c |} ]
           | None => []
           end.

(** ** What ttyinit sets up *)

Section Wiring.
Context `{platform}.

(** The vector, shell and IRQ line [ttyinit] uses for a base port. *)
Definition wiring (baseport : Z) : Z * shell * Z :=
  if baseport =? COM1_BASE
  then (COM1_IRQ + IRQ_TO_INT_N_SHIFT, irq4inthand, COM1_IRQ)
  else (COM2_IRQ + IRQ_TO_INT_N_SHIFT, irq3inthand, COM2_IRQ).

(** The state [ttyinit] leaves for a known port. *)
Definition initialised (d : device) (s : state) : state :=
  {| inQueue := init_queue MAXBUF; outQueue := init_queue MAXBUF;
     echoQueue := init_queue MAXBUF;
     ttytab := <[Z.to_nat (dvdata d) := {| echoflag := 1 |}]> (ttytab s);
     debug_record := []; eflags := eflags s; running := running s;
     clock := clock s;
     trace := trace s ++
       [ (running s, SetIntrGate (fst (fst (wiring (dvbaseport d))))
                       (snd (fst (wiring (dvbaseport d)))));
         (running s, PicEnableIrq (snd (wiring (dvbaseport d))));
         (running s, Outpt (dvbaseport d + UART_IER) UART_IER_RDI) ] |}.

End Wiring.

(** A machine whose only device-table row names a port that is neither
    COM1 nor COM2. *)
Definition lost_port : platform := {|
  UART_RX := 0; UART_TX := 0; UART_IER := 1; UART_IIR := 2;
  UART_IER_RDI := 1; UART_IER_THRI := 2; UART_IIR_ID := 6;
  UART_IIR_RDI := 4; UART_IIR_THRI := 2; COM1_BASE := 1016;
  COM2_BASE := 760; COM1_IRQ := 4; COM2_IRQ := 3;
  IRQ_TO_INT_N_SHIFT := 32; ECHOCONTROL := 1; TTY0 := 0;
  TTY1 := 1; EMPTYQUE_int := -1;
  devtab := [ {| dvbaseport := 1000; dvdata := 0 |} ]
|}.

(** ** Earlier states of the driver

    The repository holds two earlier states of tty.c.  Both call the
    queues [RX_queue], [TX_queue] and [ECHO_queue]; they are the queues
    the final driver calls [inQueue], [outQueue] and [echoQueue]. *)

Abbreviation RX_queue := InQ.
Abbreviation TX_queue := OutQ.
Abbreviation ECHO_queue := EchoQ.

(** [service] and [window] for the handlers of any state of the
    driver. *)
Fixpoint service_with (h : interrupt -> M unit) (l : list interrupt) : M unit :=
  match l with
  | [] => ret tt
  | i :: rest => h i;; service_with h rest
  end.

Definition window_with (h : interrupt -> M unit) (env : nat -> list interrupt) : M unit :=
  fun s =>
    if Z.testbit (eflags s) IF_BIT
    then (modify (set_running Handler);;
          service_with h (env (clock s));;
          modify (set_running (running s));;
          modify tick) s
    else Ret tt s.

(** The state of tty.c whose handler tests the two interrupt
    conditions one after the other. *)
Module Interim.
Section Code.
Context `{platform}.

Definition irqinthandc (rd : Z -> Z) (dev : Z) : M unit :=
  d <- devtab_entry dev;;
  let tty := dvdata d in
  let baseport := dvbaseport d in
  iir <- inpt rd (baseport + UART_IIR);;
  pic_end_int;;
  debug_log [42];;
  (if Z.land iir UART_IIR_RDI =? 0 then ret tt
   else
     ch <- inpt rd (baseport + UART_RX);;
     enqueue_at RX_queue ch;;
     e <- load_echoflag tty;;
     (if e =? 0 then ret tt else enqueue_at ECHO_queue ch;; ret tt));;
  (if Z.land iir UART_IIR_THRI =? 0 then ret tt
   else
     n <- queuecount_at ECHO_queue;;
     (if n =? 0 then ret tt
      else r <- dequeue_at ECHO_queue;; outpt (baseport + UART_TX) (deq_int r));;
     m <- queuecount_at TX_queue;;
     (if m =? 0 then ret tt
      else r <- dequeue_at TX_queue;; outpt (baseport + UART_TX) (deq_int r)));;
  outpt (baseport + UART_IER) UART_IER_RDI.

End Code.
End Interim.

(** The first state of tty.c: [ttyread] and [ttywrite] are [for] loops
    that make one attempt per character, and the handler echoes by
    writing to the transmit register itself. *)
Module Earlier.
Section Code.
Context `{platform}.

Definition irqinthandc (rd : Z -> Z) (dev : Z) : M unit :=
  d <- devtab_entry dev;;
  let tty := dvdata d in
  let baseport := dvbaseport d in
  iir <- inpt rd (baseport + UART_IIR);;
  pic_end_int;;
  debug_log [42];;
  ch <- inpt rd (baseport + UART_RX);;
  e <- load_echoflag tty;;
  (if e =? 0 then ret tt else outpt (baseport + UART_TX) ch);;
  (if Z.land iir UART_IIR_RDI =? 0 then ret tt
   else enqueue_at RX_queue ch;; ret tt);;
  (if Z.land iir UART_IIR_THRI =? 0 then ret tt
   else
     r <- dequeue_at TX_queue;;
     match r with
     | Byte c => outpt (baseport + UART_TX) c
     | EMPTYQUE => ret tt
     end);;
  outpt (baseport + UART_IER) UART_IER_RDI.

Definition irq4inthandc (rd : Z -> Z) : M unit := irqinthandc rd TTY0.

Definition irq3inthandc (rd : Z -> Z) : M unit := irqinthandc rd TTY1.

Definition dispatch (i : interrupt) : M unit :=
  match irq i with
  | IRQ4 => irq4inthandc (ports i)
  | IRQ3 => irq3inthandc (ports i)
  end.

Variable env : nat -> list interrupt.

(** [for (i = 0; i < nchar; i++)] with a body that changes neither [i]
    nor [nchar]: [n] is the number of passes still to make.  The
    character logged is [buf[i]], whether or not this pass stored it. *)
Fixpoint ttyread_loop (n : nat) (buf : list Z) (i : Z) : M (list Z) :=
  match n with
  | O => ret buf
  | S n' =>
      saved_eflags <- get_eflags;;
      cli;;
      q <- dequeue_at RX_queue;;
      buf' <- match q with
              | Byte c => lift (store_index buf i c)
              | EMPTYQUE => ret buf
              end;;
      c <- lift (at_index buf' i);;
      debug_log [62; c; 0];;
      set_eflags saved_eflags;;
      window_with dispatch env;;
      ttyread_loop n' buf' (i + 1)
  end.

Definition ttyread (dev : Z) (buf : list Z) (nchar : Z) : M (Z * list Z) :=
  devtab_entry dev;;
  buf' <- ttyread_loop (Z.to_nat nchar) buf 0;;
  ret (nchar, buf').

Fixpoint ttywrite_loop (n : nat) (baseport : Z) (buf : list Z) (i : Z) : M unit :=
  match n with
  | O => ret tt
  | S n' =>
      cli;;
      c <- lift (at_index buf i);;
      r <- enqueue_at TX_queue c;;
      match r with
      | Enqueued => outpt (baseport + UART_IER) UART_IER_THRI
      | FULLQUE => ret tt
      end;;
      debug_log [60; c; 0];;
      sti;;
      window_with dispatch env;;
      ttywrite_loop n' baseport buf (i + 1)
  end.

Definition ttywrite (dev : Z) (buf : list Z) (nchar : Z) : M Z :=
  d <- devtab_entry dev;;
  let baseport := dvbaseport d in
  ttywrite_loop (Z.to_nat nchar) baseport buf 0;;
  ret nchar.

End Code.
End Earlier.

(** ** More ways to read a trace and a state *)

(** The bytes offered to a queue, accepted or not, in order. *)
Definition offered (q : qref) (tr : list event) : list Z :=
  omap (fun e => match e with
                 | Enq q' ch _ => if decide (q' = q) then Some ch else None
                 | _ => None
                 end) tr.

(** What the transmit case does with a queue holding [l]: nothing when it
    is empty, else the head goes to the transmit register. *)
Definition drain (q : qref) (port : Z) (l : list Z) : list event :=
  match l with
  | [] => []
  | c :: _ => [Deq q (Byte c); Outpt port c]
  end.

(** How many times a stretch of the trace signals end-of-interrupt to
    the controller. *)
Definition acknowledgements (tr : list (context * event)) : nat :=
  length (omap (fun ce => match snd ce with
                          | PicEndInt => Some tt
                          | _ => None
                          end) tr).

(** No queue holds more than its capacity. *)
Definition bounded (s : state) : Prop :=
  forall q, queuecount (queue_of q s) <= capacity (queue_of q s).

(** The capacities stay and a bounded state stays bounded. *)
Definition keeps_bound (s s' : state) : Prop :=
  (forall q, capacity (queue_of q s') = capacity (queue_of q s)) /\
  (bounded s -> bounded s').

(** The debug log is only added to. *)
Definition log_grows (s s' : state) : Prop :=
  debug_record s `prefix_of` debug_record s'.

(** The same state but for the clock. *)
Definition same_but_clock (s s' : state) : Prop :=
  inQueue s' = inQueue s /\ outQueue s' = outQueue s /\
  echoQueue s' = echoQueue s /\ ttytab s' = ttytab s /\
  debug_record s' = debug_record s /\ eflags s' = eflags s /\
  running s' = running s /\ trace s' = trace s.

Section Repeated.
Context `{platform}.

(** [n] invocations of the handler in a row, the registers answering
    [rd] each time. *)
Fixpoint invocations (n : nat) (rd : Z -> Z) (dev : Z) : M unit :=
  match n with
  | O => ret tt
  | S n' => irqinthandc rd dev;; invocations n' rd dev
  end.

End Repeated.

(** The machine of [with_queues] with interrupts masked. *)
Definition masked (rx tx echo : list Z) : state :=
  write_eflags 0 (with_queues rx tx echo).

(** ** Interrupts that announce a free transmit register *)

Section Announcing.
Context `{platform}.

(** The device behind a request line, as [irq4inthandc] and
    [irq3inthandc] have it. *)
Definition line_dev (l : irq_line) : Z :=
  match l with IRQ4 => TTY0 | IRQ3 => TTY1 end.

(** The request is for a transmit-ready condition of its line. *)
Definition announces_transmit (i : interrupt) : Prop :=
  exists d,
    at_index devtab (line_dev (irq i)) = Some d /\
    Z.land (ports i (dvbaseport d + UART_IIR)) UART_IIR_ID = UART_IIR_THRI.

End Announcing.

(** COM1 reports transmit-ready whenever interrupts are taken. *)
Definition draining : nat -> list interrupt :=
  fun _ => [ {| irq := IRQ4; ports := uart 1016 2 0 |} ].

(** ** Monad and trace lemmas *)

Lemma bind_Ret {A B} (m : M A) (k : A -> M B) s b s'' :
  bind m k s = Ret b s'' -> exists a s', m s = Ret a s' /\ k a s' = Ret b s''.
Proof.
  unfold bind. destruct (m s) as [a s'| |]; [eauto | discriminate | discriminate].
Qed.

Lemma bind_runs {A B} (m : M A) (k : A -> M B) s a s' :
  m s = Ret a s' -> bind m k s = k a s'.
Proof. unfold bind. intros ->. reflexivity. Qed.

Lemma foreground_app tr1 tr2 :
  foreground (tr1 ++ tr2) = foreground tr1 ++ foreground tr2.
Proof. apply omap_app. Qed.

Lemma accepted_app q tr1 tr2 :
  accepted q (tr1 ++ tr2) = accepted q tr1 ++ accepted q tr2.
Proof. apply omap_app. Qed.

Lemma removed_app q tr1 tr2 :
  removed q (tr1 ++ tr2) = removed q tr1 ++ removed q tr2.
Proof. apply omap_app. Qed.

Lemma foreground_handler tr :
  Forall (fun ce => fst ce = Handler) tr -> foreground tr = [].
Proof.
  induction 1 as [|[c e] tr Hc _ IH]; [reflexivity|].
  simpl in Hc. subst c. exact IH.
Qed.

(** Bytes go through a queue in the order they came. *)
Lemma coherent_trans (c c' c'' a1 a2 r1 r2 : list Z) :
  c ++ a1 = r1 ++ c' -> c' ++ a2 = r2 ++ c'' ->
  c ++ a1 ++ a2 = (r1 ++ r2) ++ c''.
Proof.
  intros H1 H2. rewrite app_assoc, H1, <- !app_assoc. by rewrite H2.
Qed.

(** ** The handlers *)

Ltac split_trace := refine (conj _ (conj _ (conj _ (conj _ _)))).

#[global] Instance handler_step_refl : Reflexive handler_step.
Proof.
  intros s. split; try done. exists [].
  split_trace; [by rewrite app_nil_r | constructor | done | done |].
  intros q. simpl. by rewrite app_nil_r.
Qed.

#[global] Instance handler_step_trans : Transitive handler_step.
Proof.
  intros s1 s2 s3 [T1 E1 C1 R1 Q1 (tr1 & X1 & F1 & I1 & O1 & K1)]
                  [T2 E2 C2 R2 Q2 (tr2 & X2 & F2 & I2 & O2 & K2)].
  split; try congruence.
  exists (tr1 ++ tr2). split_trace.
  - by rewrite X2, X1, app_assoc.
  - apply Forall_app. split; [done|]. by rewrite <- R1.
  - by rewrite removed_app, I1, I2.
  - by rewrite accepted_app, O1, O2.
  - intros q. rewrite accepted_app, removed_app.
    eapply coherent_trans; eauto.
Qed.

Lemma keeps_ret R `{!Reflexive R} {A} (a : A) : keeps R (ret a).
Proof. intros s a' s' E. inversion E. reflexivity. Qed.

Lemma keeps_bind R `{!Transitive R} {A B} (m : M A) (k : A -> M B) :
  keeps R m -> (forall a, keeps R (k a)) -> keeps R (bind m k).
Proof.
  intros Hm Hk s b s'' E. apply bind_Ret in E as (a & s' & E1 & E2).
  transitivity s'; [eapply Hm | eapply Hk]; eauto.
Qed.

Lemma keeps_lift R `{!Reflexive R} {A} (o : option A) : keeps R (lift o).
Proof. destruct o; intros s a' s' E; inversion E. reflexivity. Qed.

(** A step that only logs an event which is neither a byte going into a
    queue nor one coming out. *)
Lemma handler_step_log e s :
  (forall c q, accepted q [(c, e)] = []) ->
  (forall c q, removed q [(c, e)] = []) ->
  handler_step s (log_event e s).
Proof.
  intros Ha Hr. split; try done.
  exists [(running s, e)].
  split_trace; [done | repeat constructor | apply Hr | apply Ha |].
  intros q. by rewrite Ha, Hr, app_nil_r.
Qed.

Lemma handler_step_debug v s : handler_step s (set_debug_record v s).
Proof.
  split; try done. exists [].
  split_trace; [simpl; by rewrite app_nil_r | constructor | done | done |].
  intros q. simpl. by rewrite app_nil_r.
Qed.

Lemma handler_step_enqueue q ch s :
  q <> OutQ ->
  handler_step s
    (log_event (Enq q ch (fst (enqueue (queue_of q s) ch)))
       (set_queue q (snd (enqueue (queue_of q s) ch)) s)).
Proof.
  intros Hq. split; try done.
  - intros q0. unfold enqueue.
    destruct (queuecount (queue_of q s) <? capacity (queue_of q s));
      destruct q, q0; reflexivity.
  - eexists. split; [reflexivity|]. refine (conj _ (conj _ (conj _ _))).
    + repeat constructor.
    + done.
    + unfold accepted. simpl.
      destruct (fst _); [|done]. destruct q; done.
    + intros q0. unfold enqueue.
      destruct (queuecount (queue_of q s) <? capacity (queue_of q s));
        destruct q, q0; simpl; by rewrite ?app_nil_r.
Qed.

Lemma handler_step_dequeue q s :
  q <> InQ ->
  handler_step s
    (log_event (Deq q (fst (dequeue (queue_of q s))))
       (set_queue q (snd (dequeue (queue_of q s))) s)).
Proof.
  intros Hq. split; try done.
  - intros q0. unfold dequeue.
    destruct (contents (queue_of q s)); destruct q, q0; reflexivity.
  - eexists. split; [reflexivity|]. refine (conj _ (conj _ (conj _ _))).
    + repeat constructor.
    + unfold removed. simpl.
      destruct (fst _); [|done]. destruct q; done.
    + done.
    + intros q0. unfold dequeue.
      destruct (contents (queue_of q s)) eqn:E;
        destruct q, q0; simpl in *; by rewrite ?app_nil_r, ?E.
Qed.

Section Handlers.
Context `{platform}.

Ltac returned :=
  let E := fresh "E" in
  intros ? ? ? E;
  cbv beta iota delta
    [inpt outpt pic_end_int debug_log enqueue_at dequeue_at queuecount_at
     load_echoflag bind ret modify emit] in E;
  try (inversion E; subst; clear E).

Lemma keeps_inpt rd port : keeps handler_step (inpt rd port).
Proof. returned. by apply handler_step_log. Qed.

Lemma keeps_outpt port v : keeps handler_step (outpt port v).
Proof. returned. by apply handler_step_log. Qed.

Lemma keeps_pic_end_int : keeps handler_step pic_end_int.
Proof. returned. by apply handler_step_log. Qed.

Lemma keeps_debug_log msg : keeps handler_step (debug_log msg).
Proof. returned. apply handler_step_debug. Qed.

Lemma keeps_queuecount_at q : keeps handler_step (queuecount_at q).
Proof. returned. reflexivity. Qed.

Lemma keeps_load_echoflag tty : keeps handler_step (load_echoflag tty).
Proof.
  intros s a s' E. unfold load_echoflag in E.
  destruct (at_index (ttytab s) tty); inversion E. reflexivity.
Qed.

Lemma keeps_enqueue_at q ch : q <> OutQ -> keeps handler_step (enqueue_at q ch).
Proof. intros Hq. returned. by apply handler_step_enqueue. Qed.

Lemma keeps_dequeue_at q : q <> InQ -> keeps handler_step (dequeue_at q).
Proof. intros Hq. returned. by apply handler_step_dequeue. Qed.

Create HintDb keeps.

#[local] Hint Resolve keeps_inpt keeps_outpt keeps_pic_end_int keeps_debug_log
  keeps_queuecount_at keeps_load_echoflag : keeps.

Ltac keeps_steps :=
  repeat first
    [ solve [auto with keeps]
    | apply keeps_enqueue_at; discriminate
    | apply keeps_dequeue_at; discriminate
    | apply keeps_ret; typeclasses eauto
    | apply keeps_lift; typeclasses eauto
    | apply keeps_bind; [typeclasses eauto | | intros ?]
    | lazymatch goal with
      | |- keeps _ (if ?b then _ else _) => destruct b
      end ].

Lemma keeps_transmit_case baseport : keeps handler_step (transmit_case baseport).
Proof. unfold transmit_case. keeps_steps. Qed.

Lemma keeps_receive_case baseport tty rd :
  keeps handler_step (receive_case baseport tty rd).
Proof. unfold receive_case. keeps_steps. Qed.

Lemma keeps_irqinthandc rd dev : keeps handler_step (irqinthandc rd dev).
Proof.
  pose proof keeps_transmit_case. pose proof keeps_receive_case.
  unfold irqinthandc, devtab_entry. keeps_steps; auto.
Qed.

Lemma keeps_service l : keeps handler_step (service l).
Proof.
  induction l as [|i l IH]; simpl.
  - apply keeps_ret; typeclasses eauto.
  - apply keeps_bind; [typeclasses eauto | | done].
    unfold dispatch, irq4inthandc, irq3inthandc.
    destruct (irq i); apply keeps_irqinthandc.
Qed.

(** A window shows the foreground only what handlers may do. *)
Lemma window_interference env s a s' :
  window env s = Ret a s' -> interference s s'.
Proof.
  unfold window. destruct (Z.testbit (eflags s) IF_BIT).
  - intros E. apply bind_Ret in E as (? & s1 & E1 & E).
    apply bind_Ret in E as (? & s2 & E2 & E).
    inversion E1; subst; clear E1. inversion E; subst; clear E.
    apply keeps_service in E2 as [T Ef _ R Q (tr & X & F & I & O & K)].
    simpl in *. split; simpl; try done.
    exists tr. refine (conj _ (conj _ (conj _ (conj _ _)))); try done.
    by apply foreground_handler.
  - intros E. inversion E; subst. split; try done.
    exists []. refine (conj _ (conj _ (conj _ (conj _ _)))); try done.
    + by rewrite app_nil_r.
    + intros q. simpl. by rewrite app_nil_r.
Qed.

(** The handlers stay inside the tables of a well-formed machine. *)
Lemma irqinthandc_runs rd dev s :
  dev = TTY0 \/ dev = TTY1 -> lines_ok s -> runs (irqinthandc rd dev) s.
Proof.
  intros Hdev Hok. destruct (Hok dev Hdev) as (d & t & Hd & Ht).
  unfold runs, irqinthandc, devtab_entry. rewrite Hd.
  cbv beta iota delta
    [inpt outpt pic_end_int debug_log enqueue_at dequeue_at queuecount_at
     load_echoflag receive_case transmit_case bind ret modify emit lift].
  repeat (simpl; rewrite ?Ht;
          match goal with
          | |- context [if ?b then _ else _] => destruct b
          end).
  all: simpl; rewrite ?Ht; simpl; eauto.
Qed.

End Handlers.

(** ** Windows *)

Section Windows.
Context `{platform}.
Variable env : nat -> list interrupt.

Lemma lines_ok_ttytab s s' : ttytab s' = ttytab s -> lines_ok s -> lines_ok s'.
Proof. unfold lines_ok. intros ->. done. Qed.

Lemma service_runs l s : lines_ok s -> runs (service l) s.
Proof.
  revert s. induction l as [|i l IH]; intros s Hok; simpl.
  - by exists tt, s.
  - assert (runs (dispatch i) s) as (a & s1 & E).
    { unfold dispatch, irq4inthandc, irq3inthandc.
      destruct (irq i); apply irqinthandc_runs; auto. }
    unfold runs. rewrite (bind_runs _ _ _ _ _ E). apply IH.
    assert (keeps handler_step (dispatch i)) as K.
    { unfold dispatch, irq4inthandc, irq3inthandc.
      destruct (irq i); apply keeps_irqinthandc. }
    apply K in E. eapply lines_ok_ttytab; [apply E | done].
Qed.

Lemma window_runs s : lines_ok s -> exists s', window env s = Ret tt s'.
Proof.
  intros Hok. unfold window. destruct (Z.testbit (eflags s) IF_BIT); [|eauto].
  destruct (service_runs (env (clock s)) (set_running Handler s)) as ([] & s1 & E).
  { eapply lines_ok_ttytab; [|exact Hok]. done. }
  unfold bind, modify. rewrite E. eauto.
Qed.

(** What the foreground needs to know about a window. *)
Lemma window_facts s a s' :
  window env s = Ret a s' ->
  ttytab s' = ttytab s /\ eflags s' = eflags s /\ running s' = running s /\
  (forall q, capacity (queue_of q s') = capacity (queue_of q s)) /\
  exists tr,
    trace s' = trace s ++ tr /\ foreground tr = [] /\
    removed InQ tr = [] /\ accepted OutQ tr = [] /\
    contents (inQueue s') = contents (inQueue s) ++ accepted InQ tr /\
    contents (outQueue s) = removed OutQ tr ++ contents (outQueue s').
Proof.
  intros E. apply window_interference in E as [T Ef R Q (tr & X & F & I & O & K)].
  repeat (split; [done|]). exists tr. repeat (split; [done|]).
  pose proof (K InQ) as KI. pose proof (K OutQ) as KO.
  rewrite I in KI. rewrite O, app_nil_r in KO. simpl in *. done.
Qed.

(** With nothing pending a window changes no queue. *)
Lemma window_silent s :
  (forall k, env k = []) ->
  exists s', window env s = Ret tt s' /\
    inQueue s' = inQueue s /\ outQueue s' = outQueue s.
Proof.
  intros He. unfold window. destruct (Z.testbit (eflags s) IF_BIT); [|eauto].
  rewrite He. eexists. split; [reflexivity|]. done.
Qed.

End Windows.

(** ** Arrays *)

Lemma store_index_take {A} (l l' : list A) i x :
  store_index l i x = Some l' ->
  take (Z.to_nat (i + 1)) l' = take (Z.to_nat i) l ++ [x].
Proof.
  unfold store_index. intros E.
  destruct (0 <=? i) eqn:E0; [|done]. destruct (i <? Z.of_nat (length l)) eqn:E1; [|done].
  simpl in E. inversion E; subst; clear E.
  apply Z.leb_le in E0. apply Z.ltb_lt in E1.
  replace (Z.to_nat (i + 1)) with (S (Z.to_nat i)) by lia.
  rewrite (take_S_r _ _ x).
  - by rewrite take_insert_ge.
  - apply list_lookup_insert_eq. lia.
Qed.

Lemma store_index_drop {A} (l l' : list A) i n x :
  store_index l i x = Some l' -> i < n ->
  drop (Z.to_nat n) l' = drop (Z.to_nat n) l.
Proof.
  unfold store_index. intros E Hn.
  destruct (0 <=? i) eqn:E0; [|done]. destruct (i <? Z.of_nat (length l)) eqn:E1; [|done].
  simpl in E. inversion E; subst; clear E.
  apply Z.leb_le in E0. apply drop_insert_lt. lia.
Qed.

Lemma store_index_length {A} (l l' : list A) i x :
  store_index l i x = Some l' -> length l' = length l.
Proof.
  unfold store_index. intros E.
  destruct ((0 <=? i) && (i <? Z.of_nat (length l))); [|done].
  inversion E. apply length_insert.
Qed.

Lemma store_index_in_range {A} (l : list A) i x :
  0 <= i < Z.of_nat (length l) -> exists l', store_index l i x = Some l'.
Proof.
  intros Hi. unfold store_index.
  destruct (0 <=? i) eqn:E0; [|lia]. destruct (i <? Z.of_nat (length l)) eqn:E1; [|lia].
  simpl. eauto.
Qed.

Lemma at_index_drop {A} (l : list A) i n x :
  at_index l i = Some x -> i < n ->
  drop (Z.to_nat i) (take (Z.to_nat n) l)
  = x :: drop (Z.to_nat (i + 1)) (take (Z.to_nat n) l).
Proof.
  unfold at_index. intros E Hn. destruct (i <? 0) eqn:E0; [done|].
  apply Z.ltb_ge in E0.
  replace (Z.to_nat (i + 1)) with (S (Z.to_nat i)) by lia.
  apply drop_S. rewrite lookup_take_lt by lia. done.
Qed.

Lemma at_index_in_range {A} (l : list A) i :
  0 <= i < Z.of_nat (length l) -> exists x, at_index l i = Some x.
Proof.
  intros Hi. unfold at_index. destruct (i <? 0) eqn:E0; [lia|].
  apply lookup_lt_is_Some. lia.
Qed.

(** ** ttyread *)

#[local] Arguments Z.testbit : simpl never.

Section Read.
Context `{platform}.
Variable env : nat -> list interrupt.

(** The state after the masked part of one pass of the loop. *)
Lemma ttyread_loop_unfold fuel buf i nchar s :
  i < nchar ->
  ttyread_loop env (S fuel) buf i nchar s =
  (saved_eflags <- get_eflags;;
   cli;;
   ch <- dequeue_at InQ;;
   r <- match ch with
        | Byte c =>
            buf' <- lift (store_index buf i c);;
            debug_log [62; c; 0];;
            ret (buf', i + 1)
        | EMPTYQUE => ret (buf, i)
        end;;
   set_eflags saved_eflags;;
   window env;;
   ttyread_loop env fuel (fst r) (snd r) nchar) s.
Proof. intros Hi. simpl. apply Z.ltb_lt in Hi. by rewrite Hi. Qed.

Lemma ttyread_loop_done fuel buf i nchar s :
  nchar <= i -> ttyread_loop env fuel buf i nchar s = Ret buf s.
Proof.
  intros Hi. apply Z.ltb_ge in Hi. destruct fuel; simpl; by rewrite Hi.
Qed.

Lemma ttyread_loop_returns nchar fuel :
  forall buf i s buf' s',
    0 <= i <= nchar ->
    ttyread_loop env fuel buf i nchar s = Ret buf' s' ->
    ttytab s' = ttytab s /\ running s' = running s /\
    exists tr,
      trace s' = trace s ++ tr /\
      Z.of_nat (length (removed InQ tr)) = nchar - i /\
      buf' = take (Z.to_nat i) buf ++ removed InQ tr ++ drop (Z.to_nat nchar) buf /\
      contents (inQueue s) ++ accepted InQ tr
      = removed InQ tr ++ contents (inQueue s') /\
      eflags s' = eflags s /\
      (running s = Foreground ->
       masked_queue_ops (eflags s) (foreground tr) = true).
Proof.
  induction fuel as [|fuel IH]; intros buf i s buf' s' Hi E.
  - simpl in E. destruct (i <? nchar) eqn:Hlt; [discriminate|].
    apply Z.ltb_ge in Hlt. inversion E; subst; clear E.
    assert (i = nchar) as -> by lia.
    do 2 (split; [done|]). exists []. simpl.
    rewrite !app_nil_r, take_drop. split; [done|]. split; [lia|done].
  - destruct (Z.lt_ge_cases i nchar) as [Hlt|Hge].
    2:{ rewrite ttyread_loop_done in E by done. inversion E; subst; clear E.
        assert (i = nchar) as -> by lia.
        do 2 (split; [done|]). exists []. simpl.
        rewrite !app_nil_r, take_drop. split; [done|]. split; [lia|done]. }
    rewrite ttyread_loop_unfold in E by done.
    cbv beta iota delta [get_eflags cli dequeue_at set_eflags bind modify emit] in E.
    unfold dequeue in E. simpl in E.
    destruct (contents (inQueue s)) as [|c rest] eqn:Hq; simpl in E.
    + (* the queue is empty: nothing stored, same index *)
      match type of E with
      | match window env ?s4 with _ => _ end = _ =>
          destruct (window env s4) as [[] s5| |] eqn:W; try discriminate
      end.
      apply window_facts in W as (T & Ef & R & _ & trw & X & F & I & O & KI & KO).
      apply IH in E as (T' & R' & tr & X' & L & B & K & Ef' & Mk); [|lia].
      simpl in *. split; [congruence|]. split; [congruence|].
      eexists. split.
      { rewrite X', X, <- !app_assoc. reflexivity. }
      rewrite !removed_app, !accepted_app, !foreground_app, I, F. simpl.
      split; [done|]. split; [done|]. split.
      { rewrite KI, Hq in K. simpl in K. done. }
      split; [congruence|]. intros Rs.
      unfold foreground. simpl. rewrite Rs. simpl.
      rewrite Z.clearbit_eq. simpl.
      rewrite <- Ef. apply Mk. congruence.
    + (* a byte is there: it goes to buf[i] *)
      destruct (store_index buf i c) as [buf1|] eqn:St; simpl in E; [|discriminate].
      match type of E with
      | match window env ?s4 with _ => _ end = _ =>
          destruct (window env s4) as [[] s5| |] eqn:W; try discriminate
      end.
      apply window_facts in W as (T & Ef & R & _ & trw & X & F & I & O & KI & KO).
      apply IH in E as (T' & R' & tr & X' & L & B & K & Ef' & Mk); [|lia].
      simpl in *. split; [congruence|]. split; [congruence|].
      eexists. split.
      { rewrite X', X, <- !app_assoc. reflexivity. }
      rewrite !removed_app, !accepted_app, !foreground_app, I, F. simpl.
      split; [lia|]. split.
      { rewrite B, (store_index_take _ _ _ _ St), (store_index_drop _ _ _ nchar _ St) by lia.
        by rewrite <- app_assoc. }
      split.
      { rewrite KI in K. rewrite <- app_assoc in K. by rewrite K. }
      split; [congruence|]. intros Rs.
      unfold foreground. simpl. rewrite Rs. simpl.
      rewrite Z.clearbit_eq. simpl.
      rewrite <- Ef. apply Mk. congruence.
Qed.

(** Once enough bytes are queued the loop needs one pass per byte. *)
Lemma ttyread_loop_runs nchar fuel :
  forall buf i s,
    0 <= i -> lines_ok s ->
    nchar <= Z.of_nat (length buf) ->
    nchar - i <= queuecount (inQueue s) ->
    (Z.to_nat (nchar - i) <= fuel)%nat ->
    runs (ttyread_loop env fuel buf i nchar) s.
Proof.
  induction fuel as [|fuel IH]; intros buf i s Hi Hok Hbuf Hq Hfuel.
  - exists buf, s. apply ttyread_loop_done. lia.
  - destruct (Z.lt_ge_cases i nchar) as [Hlt|Hge].
    2:{ exists buf, s. by apply ttyread_loop_done. }
    unfold runs. rewrite ttyread_loop_unfold by done.
    cbv beta iota delta [get_eflags cli dequeue_at set_eflags bind modify emit].
    unfold dequeue. simpl. unfold queuecount in Hq.
    destruct (contents (inQueue s)) as [|c rest] eqn:Hc; simpl in *; [lia|].
    destruct (store_index_in_range buf i c) as (buf1 & St); [lia|].
    rewrite St. simpl.
    match goal with
    | |- context [window env ?s4] =>
        destruct (window_runs env s4) as (s5 & W);
          [eapply lines_ok_ttytab; [|exact Hok]; done|]
    end.
    rewrite W. apply window_facts in W as (T & _ & _ & _ & trw & _ & _ & _ & _ & KI & _).
    simpl in *. apply IH.
    + lia.
    + eapply lines_ok_ttytab; [|exact Hok]. done.
    + rewrite (store_index_length _ _ _ _ St). lia.
    + unfold queuecount. rewrite KI, length_app. lia.
    + lia.
Qed.

(** With an empty queue and no interrupt the loop never gets past its
    first byte. *)
Lemma ttyread_loop_spins nchar fuel :
  forall buf i s,
    i < nchar -> contents (inQueue s) = [] -> (forall k, env k = []) ->
    ttyread_loop env fuel buf i nchar s = Spinning.
Proof.
  induction fuel as [|fuel IH]; intros buf i s Hi Hq He.
  - simpl. apply Z.ltb_lt in Hi. by rewrite Hi.
  - rewrite ttyread_loop_unfold by done.
    cbv beta iota delta [get_eflags cli dequeue_at set_eflags bind modify emit].
    unfold dequeue. simpl. rewrite Hq. simpl.
    match goal with
    | |- context [window env ?s4] =>
        destruct (window_silent env s4 He) as (s5 & W & QI & _)
    end.
    rewrite W. simpl in *. apply IH; try done. by rewrite QI.
Qed.

End Read.

(** ** ttywrite *)

Section Write.
Context `{platform}.
Variable env : nat -> list interrupt.

Lemma ttywrite_loop_unfold fuel baseport buf i nchar s :
  i < nchar ->
  ttywrite_loop env (S fuel) baseport buf i nchar s =
  (c <- lift (at_index buf i);;
   r <- enqueue_at OutQ c;;
   window env;;
   i' <- match r with
         | Enqueued =>
             outpt (baseport + UART_IER) UART_IER_THRI;;
             window env;;
             debug_log [60; c; 0];;
             ret (i + 1)
         | FULLQUE => ret i
         end;;
   sti;;
   window env;;
   ttywrite_loop env fuel baseport buf i' nchar) s.
Proof. intros Hi. simpl. apply Z.ltb_lt in Hi. by rewrite Hi. Qed.

Lemma ttywrite_loop_done fuel baseport buf i nchar s :
  nchar <= i -> ttywrite_loop env fuel baseport buf i nchar s = Ret tt s.
Proof.
  intros Hi. apply Z.ltb_ge in Hi. destruct fuel; simpl; by rewrite Hi.
Qed.

Ltac open_window E :=
  match type of E with
  | context [window env ?s0] =>
      let W := fresh "W" in
      destruct (window env s0) as [[] ?s| |] eqn:W; try discriminate;
      let T := fresh "T" in let R := fresh "R" in let tr := fresh "trw" in
      let X := fresh "X" in let F := fresh "F" in let O := fresh "O" in
      let K := fresh "K" in
      apply window_facts in W as (T & _ & R & _ & tr & X & F & _ & O & _ & K);
      simpl in T, R, X, K; simpl in E
  end.

Lemma ttywrite_loop_returns baseport buf nchar fuel :
  forall i s a s',
    0 <= i <= nchar ->
    ttywrite_loop env fuel baseport buf i nchar s = Ret a s' ->
    ttytab s' = ttytab s /\ running s' = running s /\
    exists tr,
      trace s' = trace s ++ tr /\
      (running s = Foreground ->
       write_protocol (baseport + UART_IER) UART_IER_THRI
         (drop (Z.to_nat i) (take (Z.to_nat nchar) buf)) (foreground tr)) /\
      accepted OutQ tr = drop (Z.to_nat i) (take (Z.to_nat nchar) buf) /\
      Z.of_nat (length (accepted OutQ tr)) = nchar - i /\
      contents (outQueue s) ++ accepted OutQ tr
      = removed OutQ tr ++ contents (outQueue s').
Proof.
  assert (forall i s, i = nchar ->
    exists tr : list (context * event),
      trace s = trace s ++ tr /\
      (running s = Foreground ->
       write_protocol (baseport + UART_IER) UART_IER_THRI
         (drop (Z.to_nat i) (take (Z.to_nat nchar) buf)) (foreground tr)) /\
      accepted OutQ tr = drop (Z.to_nat i) (take (Z.to_nat nchar) buf) /\
      Z.of_nat (length (accepted OutQ tr)) = nchar - i /\
      contents (outQueue s) ++ accepted OutQ tr
      = removed OutQ tr ++ contents (outQueue s)) as Hdone.
  { intros i s ->. exists [].
    assert (drop (Z.to_nat nchar) (take (Z.to_nat nchar) buf) = []) as ->.
    { apply drop_ge. rewrite length_take. lia. }
    simpl. rewrite !app_nil_r.
    split; [done|]. split; [intros _; constructor|]. split; [done|].
    split; [lia|done]. }
  induction fuel as [|fuel IH]; intros i s a s' Hi E.
  - simpl in E. destruct (i <? nchar) eqn:Hlt; [discriminate|].
    apply Z.ltb_ge in Hlt. inversion E; subst; clear E.
    do 2 (split; [done|]). apply Hdone. lia.
  - destruct (Z.lt_ge_cases i nchar) as [Hlt|Hge].
    2:{ rewrite ttywrite_loop_done in E by done. inversion E; subst; clear E.
        do 2 (split; [done|]). apply Hdone. lia. }
    rewrite ttywrite_loop_unfold in E by done.
    apply bind_Ret in E as (c & s0 & Ec & E).
    destruct (at_index buf i) as [c'|] eqn:Hc; inversion Ec; subst; clear Ec.
    rewrite (at_index_drop _ _ nchar _ Hc) by done.
    cbv beta iota delta [enqueue_at sti outpt debug_log bind modify emit ret] in E.
    unfold enqueue in E. simpl in E.
    destruct (queuecount (outQueue s0) <? capacity (outQueue s0)) eqn:Hfull;
      simpl in E.
    + (* the queue takes the byte *)
      open_window E. open_window E. open_window E.
      apply IH in E as (T' & R' & tr & X' & P & A & L & K'); [|lia].
      rewrite R0, R in X1. rewrite R in X0.
      split; [congruence|]. split; [congruence|].
      eexists. split.
      { rewrite X', X1, X0, X, <- !app_assoc. reflexivity. }
      rewrite !foreground_app, !accepted_app, !removed_app, F, F0, F1, O, O0, O1.
      simpl.
      split.
      { intros Rs. rewrite Rs. simpl. constructor. apply P. congruence. }
      split; [by rewrite A|]. split; [lia|].
      transitivity ((contents (outQueue s0) ++ [c]) ++ accepted OutQ tr);
        [by rewrite <- app_assoc|].
      rewrite K, K0, K1, <- !app_assoc. by rewrite K'.
    + (* the queue is full: the same byte again *)
      open_window E. open_window E.
      apply IH in E as (T' & R' & tr & X' & P & A & L & K'); [|lia].
      rewrite (at_index_drop _ _ nchar _ Hc) in P, A by done.
      rewrite R in X0.
      split; [congruence|]. split; [congruence|].
      eexists. split.
      { rewrite X', X0, X, <- !app_assoc. reflexivity. }
      rewrite !foreground_app, !accepted_app, !removed_app, F, F0, O, O0.
      simpl.
      split.
      { intros Rs. rewrite Rs. simpl. constructor. apply P. congruence. }
      split; [done|]. split; [done|].
      rewrite K, K0, <- !app_assoc. by rewrite K'.
Qed.

Ltac pass_window Hok :=
  match goal with
  | |- context [window env ?s0] =>
      let W := fresh "W" in let s1 := fresh "s" in
      destruct (window_runs env s0) as (s1 & W);
        [eapply lines_ok_ttytab; [|exact Hok]; simpl; congruence|];
      rewrite W;
      let T := fresh "T" in let Q := fresh "Q" in let tr := fresh "trw" in
      let K := fresh "K" in
      apply window_facts in W as (T & _ & _ & Q & tr & _ & _ & _ & _ & _ & K);
      specialize (Q OutQ); simpl in T, Q, K; simpl
  end.

(** With room for the bytes still to go the loop needs one pass per
    byte. *)
Lemma ttywrite_loop_runs baseport buf nchar fuel :
  forall i s,
    0 <= i -> lines_ok s ->
    nchar <= Z.of_nat (length buf) ->
    nchar - i <= capacity (outQueue s) - queuecount (outQueue s) ->
    (Z.to_nat (nchar - i) <= fuel)%nat ->
    runs (ttywrite_loop env fuel baseport buf i nchar) s.
Proof.
  induction fuel as [|fuel IH]; intros i s Hi Hok Hbuf Hq Hfuel.
  - exists tt, s. apply ttywrite_loop_done. lia.
  - destruct (Z.lt_ge_cases i nchar) as [Hlt|Hge].
    2:{ exists tt, s. by apply ttywrite_loop_done. }
    unfold runs. rewrite ttywrite_loop_unfold by done.
    destruct (at_index_in_range buf i) as (c & Hc); [lia|].
    rewrite Hc.
    cbv beta iota delta [enqueue_at sti outpt debug_log bind modify emit ret lift].
    unfold enqueue. simpl.
    destruct (queuecount (outQueue s) <? capacity (outQueue s)) eqn:Hfull;
      [|apply Z.ltb_ge in Hfull; lia].
    simpl. pass_window Hok. pass_window Hok. pass_window Hok.
    apply IH; try lia.
    + eapply lines_ok_ttytab; [|exact Hok]. congruence.
    + unfold queuecount in *.
      apply (f_equal length) in K, K0, K1. rewrite !length_app in *.
      simpl in *. lia.
Qed.

(** With a full queue and no interrupt the loop offers the same byte for
    ever. *)
Lemma ttywrite_loop_spins baseport buf nchar fuel :
  forall i s,
    0 <= i < nchar -> nchar <= Z.of_nat (length buf) ->
    capacity (outQueue s) <= queuecount (outQueue s) ->
    (forall k, env k = []) ->
    ttywrite_loop env fuel baseport buf i nchar s = Spinning.
Proof.
  induction fuel as [|fuel IH]; intros i s Hi Hbuf Hq He.
  - simpl. destruct Hi as [_ Hi]. apply Z.ltb_lt in Hi. by rewrite Hi.
  - rewrite ttywrite_loop_unfold by lia.
    destruct (at_index_in_range buf i) as (c & Hc); [lia|].
    rewrite Hc.
    cbv beta iota delta [enqueue_at sti outpt debug_log bind modify emit ret lift].
    unfold enqueue. simpl.
    destruct (queuecount (outQueue s) <? capacity (outQueue s)) eqn:Hfull;
      [apply Z.ltb_lt in Hfull; lia|].
    simpl.
    match goal with
    | |- context [window env ?s0] =>
        destruct (window_silent env s0 He) as (s1 & W & _ & Q1)
    end.
    rewrite W. simpl.
    match goal with
    | |- context [window env ?s0] =>
        destruct (window_silent env s0 He) as (s2 & W' & _ & Q2)
    end.
    rewrite W'. simpl in *. apply IH; try done. rewrite Q2, Q1. done.
Qed.

End Write.

(** ** ttycontrol *)

Lemma at_index_store {A} (l : list A) i x y :
  at_index l i = Some y ->
  store_index l i x = Some (<[Z.to_nat i := x]> l) /\
  at_index (<[Z.to_nat i := x]> l) i = Some x.
Proof.
  unfold at_index, store_index. destruct (i <? 0) eqn:E0; [done|].
  intros Hl. apply Z.ltb_ge in E0.
  assert (Z.to_nat i < length l)%nat as Hlt by (apply lookup_lt_is_Some; eauto).
  destruct (0 <=? i) eqn:E1; [|lia].
  destruct (i <? Z.of_nat (length l)) eqn:E2; [|lia].
  split; [done|]. by apply list_lookup_insert_eq.
Qed.

Lemma at_index_insert_ne {A} (l : list A) i k x :
  0 <= i -> k <> i -> at_index (<[Z.to_nat i := x]> l) k = at_index l k.
Proof.
  intros Hi Hk. unfold at_index. destruct (k <? 0) eqn:E0; [done|].
  apply Z.ltb_ge in E0. apply list_lookup_insert_ne. lia.
Qed.

Section Control.
Context `{platform}.

(** C7: a call of [ttycontrol] with the echo-control code returns 0 and
    leaves a state in which the echo flag of the line is [val] and
    everything else, the structs of the other lines included, is as it
    was; with any other code it returns -1 and leaves the whole state as
    it was. *)
Theorem ttycontrol_sets_echo_or_refuses dev fncode val s d :
  at_index devtab dev = Some d ->
  (fncode = ECHOCONTROL ->
   forall t, at_index (ttytab s) (dvdata d) = Some t ->
   exists s',
     ttycontrol dev fncode val s = Ret 0 s' /\
     at_index (ttytab s') (dvdata d) = Some {| echoflag := val |} /\
     (forall k, k <> dvdata d -> at_index (ttytab s') k = at_index (ttytab s) k) /\
     length (ttytab s') = length (ttytab s) /\
     inQueue s' = inQueue s /\ outQueue s' = outQueue s /\
     echoQueue s' = echoQueue s /\ debug_record s' = debug_record s /\
     eflags s' = eflags s /\ running s' = running s /\
     clock s' = clock s /\ trace s' = trace s) /\
  (fncode <> ECHOCONTROL -> ttycontrol dev fncode val s = Ret (-1) s).
Proof.
  intros Hd. split.
  - intros -> t Ht.
    destruct (at_index_store _ _ {| echoflag := val |} _ Ht) as [St Ld].
    exists (set_ttytab (<[Z.to_nat (dvdata d) := {| echoflag := val |}]> (ttytab s)) s).
    split.
    { unfold ttycontrol, devtab_entry, bind, store_echoflag.
      rewrite Hd. simpl. rewrite Z.eqb_refl. by rewrite St. }
    simpl. split; [exact Ld|]. split.
    { intros k Hk. apply at_index_insert_ne; [|done].
      unfold at_index in Ht. destruct (dvdata d <? 0) eqn:E0; [done|]. lia. }
    split; [apply length_insert|]. done.
  - intros Hf. apply Z.eqb_neq in Hf.
    unfold ttycontrol, devtab_entry, bind. rewrite Hd. simpl. by rewrite Hf.
Qed.

End Control.

Lemma ttycontrol_witness :
  (exists s',
     @ttycontrol sapc 0 1 0 (with_queues [120] [] []) = Ret 0 s' /\
     at_index (ttytab s') 0 = Some {| echoflag := 0 |} /\
     at_index (ttytab s') 1 = Some {| echoflag := 1 |} /\
     inQueue s' = inQueue (with_queues [120] [] []) /\
     trace s' = []) /\
  @ttycontrol sapc 0 7 0 (with_queues [120] [] []) = Ret (-1) (with_queues [120] [] []).
Proof.
  destruct (@ttycontrol_sets_echo_or_refuses sapc 0 1 0 (with_queues [120] [] [])
              {| dvbaseport := 1016; dvdata := 0 |} eq_refl) as [Hset _].
  destruct (@ttycontrol_sets_echo_or_refuses sapc 0 7 0 (with_queues [120] [] [])
              {| dvbaseport := 1016; dvdata := 0 |} eq_refl) as [_ Hno].
  split.
  - destruct (Hset eq_refl {| echoflag := 1 |} eq_refl)
      as (s' & E & Hown & Hother & _ & Hin & _ & _ & _ & _ & _ & _ & Htr).
    exists s'. split; [exact E|]. split; [exact Hown|].
    split; [rewrite Hother; [reflexivity|discriminate]|].
    split; [exact Hin|exact Htr].
  - apply Hno. discriminate.
Defined.

(** ** ttyinit *)

Lemma state_ext s1 s2 :
  inQueue s1 = inQueue s2 -> outQueue s1 = outQueue s2 ->
  echoQueue s1 = echoQueue s2 -> ttytab s1 = ttytab s2 ->
  debug_record s1 = debug_record s2 -> eflags s1 = eflags s2 ->
  running s1 = running s2 -> clock s1 = clock s2 -> trace s1 = trace s2 ->
  s1 = s2.
Proof. destruct s1, s2. simpl. intros. by subst. Qed.

Section Init.
Context `{platform}.

Lemma ttyinit_known dev s d t :
  at_index devtab dev = Some d ->
  dvbaseport d = COM1_BASE \/ dvbaseport d = COM2_BASE ->
  at_index (ttytab s) (dvdata d) = Some t ->
  ttyinit dev s = Ret tt (initialised d s).
Proof.
  intros Hd Hb Ht. unfold ttyinit, devtab_entry, initialised, wiring.
  destruct (at_index_store _ _ {| echoflag := 1 |} _ Ht) as [St _].
  cbv beta iota delta
    [init_queue_at set_intr_gate pic_enable_irq outpt store_echoflag
     kprintf_bad_entry bind modify emit ret lift].
  simpl. rewrite Hd.
  destruct (dvbaseport d =? COM1_BASE) eqn:E1; simpl.
  - rewrite St. f_equal. apply state_ext; simpl; try reflexivity.
    by rewrite <- !app_assoc.
  - destruct (dvbaseport d =? COM2_BASE) eqn:E2; simpl.
    + rewrite St. f_equal. apply state_ext; simpl; try reflexivity.
      by rewrite <- !app_assoc.
    + apply Z.eqb_neq in E1, E2. destruct Hb; done.
Qed.

(** C8: with a base port that is neither COM1 nor COM2, [ttyinit] only
    prints the bad-entry message: no vector is installed, no IRQ line
    unmasked, no port written, and the line structs are as before.  With
    a known port the echo flag of the line becomes 1 and the last thing
    done is the write of the receiver-data bit to the interrupt-enable
    register. *)
Theorem ttyinit_unknown_port_gives_up dev s d :
  at_index devtab dev = Some d ->
  (dvbaseport d <> COM1_BASE -> dvbaseport d <> COM2_BASE ->
   exists s', ttyinit dev s = Ret tt s' /\
     trace s' = trace s ++ [(running s, Kprintf dev)] /\
     ttytab s' = ttytab s) /\
  (dvbaseport d = COM1_BASE \/ dvbaseport d = COM2_BASE ->
   forall t, at_index (ttytab s) (dvdata d) = Some t ->
   exists s', ttyinit dev s = Ret tt s' /\
     echoflag <$> at_index (ttytab s') (dvdata d) = Some 1 /\
     map snd (drop (length (trace s)) (trace s'))
     = [ SetIntrGate (fst (fst (wiring (dvbaseport d))))
           (snd (fst (wiring (dvbaseport d))));
         PicEnableIrq (snd (wiring (dvbaseport d)));
         Outpt (dvbaseport d + UART_IER) UART_IER_RDI ]).
Proof.
  intros Hd. split.
  - intros N1 N2. apply Z.eqb_neq in N1, N2.
    unfold ttyinit, devtab_entry.
    cbv beta iota delta
      [init_queue_at kprintf_bad_entry bind modify emit ret lift].
    simpl. rewrite Hd, N1, N2. eexists. split; [reflexivity|]. done.
  - intros Hb t Ht. exists (initialised d s).
    split; [by eapply ttyinit_known|]. simpl. split.
    + destruct (at_index_store _ _ {| echoflag := 1 |} _ Ht) as [_ Ld].
      by rewrite Ld.
    + by rewrite drop_app_length.
Qed.

(** C9: for a device with a known base port a second [ttyinit] leaves
    the driver's data as the first one left them: three empty queues of
    capacity 6 and the echo flag of the line at 1. *)
Theorem ttyinit_twice_as_once dev s d t :
  at_index devtab dev = Some d ->
  dvbaseport d = COM1_BASE \/ dvbaseport d = COM2_BASE ->
  at_index (ttytab s) (dvdata d) = Some t ->
  exists s1 s2,
    ttyinit dev s = Ret tt s1 /\
    ttyinit dev s1 = Ret tt s2 /\
    driver_data s2 = driver_data s1 /\
    inQueue s1 = {| capacity := 6; contents := [] |} /\
    outQueue s1 = {| capacity := 6; contents := [] |} /\
    echoQueue s1 = {| capacity := 6; contents := [] |} /\
    echoflag <$> at_index (ttytab s1) (dvdata d) = Some 1.
Proof.
  intros Hd Hb Ht.
  destruct (at_index_store _ _ {| echoflag := 1 |} _ Ht) as [_ Ld].
  exists (initialised d s), (initialised d (initialised d s)).
  split; [by eapply ttyinit_known|].
  split; [by eapply ttyinit_known|].
  split.
  - unfold driver_data. simpl. by rewrite list_insert_insert_eq.
  - simpl. by rewrite Ld.
Qed.

End Init.

Lemma ttyinit_unknown_port_witness :
  (exists s', @ttyinit sapc 1 boot = Ret tt s' /\
     echoflag <$> at_index (ttytab s') 1 = Some 1) /\
  (exists s', @ttyinit lost_port 0 boot = Ret tt s' /\
     trace s' = [(Foreground, Kprintf 0)] /\ ttytab s' = ttytab boot).
Proof.
  split.
  - destruct (@ttyinit_unknown_port_gives_up sapc 1 boot
                {| dvbaseport := 760; dvdata := 1 |} eq_refl) as [_ Hk].
    destruct (Hk (or_intror eq_refl) {| echoflag := 0 |} eq_refl)
      as (s' & E & F & _).
    exists s'. split; assumption.
  - destruct (@ttyinit_unknown_port_gives_up lost_port 0 boot
                {| dvbaseport := 1000; dvdata := 0 |} eq_refl) as [Hu _].
    apply Hu; discriminate.
Defined.

Lemma ttyinit_twice_witness :
  exists s1 s2,
    @ttyinit sapc 0 boot = Ret tt s1 /\
    @ttyinit sapc 0 s1 = Ret tt s2 /\
    driver_data s2 = driver_data s1 /\
    inQueue s1 = {| capacity := 6; contents := [] |} /\
    outQueue s1 = {| capacity := 6; contents := [] |} /\
    echoQueue s1 = {| capacity := 6; contents := [] |} /\
    echoflag <$> at_index (ttytab s1) 0 = Some 1.
Proof.
  apply (@ttyinit_twice_as_once sapc 0 boot
           {| dvbaseport := 1016; dvdata := 0 |} {| echoflag := 0 |}).
  - reflexivity.
  - left. reflexivity.
  - reflexivity.
Defined.

(** ** The interrupt handler *)

(** C1: on the PC, with echo on and the queues empty, a receive
    interrupt for the byte 113 does not stop after queueing the byte: the
    handler goes on into the transmit case, takes the byte back out of
    the echo queue and writes it to the transmit register (port 1016). *)
Theorem receive_interrupt_runs_transmit_case :
  exists s',
    @irqinthandc sapc (uart 1016 4 113) 0 (in_handler [] [] []) = Ret tt s' /\
    map snd (trace s')
    = [ Inpt 1018 4; PicEndInt; Inpt 1016 113;
        Enq InQ 113 Enqueued; Enq EchoQ 113 Enqueued;
        Deq EchoQ (Byte 113); Outpt 1016 113; Outpt 1017 1 ] /\
    removed EchoQ (trace s') = [113] /\
    written 1016 (trace s') = [113].
Proof. eexists. split; [vm_compute; reflexivity|]. vm_compute. done. Qed.

(** C2, as stated, fails: with the echo queue holding 101 and the
    transmit queue holding 111, a transmit-ready interrupt writes two
    bytes and takes the transmit queue's byte as well. *)
Lemma transmit_ready_touches_transmit_queue :
  ~ (forall s',
       @irqinthandc sapc (uart 1016 2 0) 0 (in_handler [] [111] [101]) = Ret tt s' ->
       written 1016 (trace s') = [101] /\
       outQueue s' = outQueue (in_handler [] [111] [101])).
Proof.
  intros Hclaim.
  eassert (@irqinthandc sapc (uart 1016 2 0) 0 (in_handler [] [111] [101])
           = Ret tt _) as E by (vm_compute; reflexivity).
  destruct (Hclaim _ E) as [Hw _]. vm_compute in Hw. discriminate.
Qed.

Section Handler.
Context `{platform}.

(** C2, amended: a transmit-ready interrupt that finds both the echo
    queue and the transmit queue non-empty takes the head of each and
    writes both to the transmit register, the echo byte first; the
    receive queue is left alone. *)
Theorem transmit_ready_drains_echo_then_transmit rd dev s d e es o os :
  at_index devtab dev = Some d ->
  UART_IIR_RDI <> UART_IIR_THRI ->
  Z.land (rd (dvbaseport d + UART_IIR)) UART_IIR_ID = UART_IIR_THRI ->
  contents (echoQueue s) = e :: es ->
  contents (outQueue s) = o :: os ->
  exists s',
    irqinthandc rd dev s = Ret tt s' /\
    trace s' = trace s ++ map (pair (running s))
      [ Inpt (dvbaseport d + UART_IIR) (rd (dvbaseport d + UART_IIR));
        PicEndInt;
        Deq EchoQ (Byte e); Outpt (dvbaseport d + UART_TX) e;
        Deq OutQ (Byte o); Outpt (dvbaseport d + UART_TX) o;
        Outpt (dvbaseport d + UART_IER) UART_IER_RDI ] /\
    contents (echoQueue s') = es /\
    contents (outQueue s') = os /\
    inQueue s' = inQueue s.
Proof.
  intros Hd Hne Hiir He Ho.
  unfold irqinthandc, devtab_entry. rewrite Hd.
  cbv beta iota delta
    [inpt outpt pic_end_int debug_log enqueue_at dequeue_at queuecount_at
     transmit_case bind ret modify emit lift].
  simpl. rewrite Hiir.
  destruct (UART_IIR_THRI =? UART_IIR_RDI) eqn:E1;
    [apply Z.eqb_eq in E1; congruence|].
  rewrite Z.eqb_refl. unfold queuecount, dequeue. simpl.
  rewrite He. simpl. rewrite Ho. simpl.
  eexists. split; [reflexivity|]. simpl. rewrite <- !app_assoc, He, Ho. done.
Qed.

End Handler.

Lemma transmit_ready_witness :
  exists s',
    @irqinthandc sapc (uart 1016 2 0) 0 (in_handler [] [111] [101]) = Ret tt s' /\
    trace s' = map (pair Handler)
      [ Inpt 1018 2; PicEndInt; Deq EchoQ (Byte 101); Outpt 1016 101;
        Deq OutQ (Byte 111); Outpt 1016 111; Outpt 1017 1 ] /\
    contents (echoQueue s') = [] /\
    contents (outQueue s') = [] /\
    inQueue s' = inQueue (in_handler [] [111] [101]).
Proof.
  apply (@transmit_ready_drains_echo_then_transmit sapc (uart 1016 2 0) 0
           (in_handler [] [111] [101]) {| dvbaseport := 1016; dvdata := 0 |}
           101 [] 111 []).
  - reflexivity.
  - discriminate.
  - reflexivity.
  - reflexivity.
  - reflexivity.
Defined.

(** ** ttywrite with nothing to write *)

Section WriteNothing.
Context `{platform}.
Variable env : nat -> list interrupt.

(** C10: with [nchar <= 0], [ttywrite] returns [nchar] at once; it has
    executed [cli] and nothing else, so no byte is queued, no port is
    written, and the interrupt flag is clear on return. *)
Theorem ttywrite_nothing_leaves_interrupts_off fuel dev buf nchar s d :
  nchar <= 0 ->
  at_index devtab dev = Some d ->
  exists s',
    ttywrite env fuel dev buf nchar s = Ret nchar s' /\
    trace s' = trace s ++ [(running s, Cli)] /\
    Z.testbit (eflags s') IF_BIT = false /\
    driver_data s' = driver_data s.
Proof.
  intros Hn Hd. unfold ttywrite, devtab_entry. rewrite Hd.
  cbv beta iota delta [cli bind ret modify emit lift].
  rewrite ttywrite_loop_done by lia.
  eexists. split; [reflexivity|]. simpl.
  split; [done|]. split; [apply Z.clearbit_eq|done].
Qed.

End WriteNothing.

Lemma ttywrite_nothing_witness :
  exists s',
    @ttywrite sapc silence 5 0 [97; 98] 0 boot = Ret 0 s' /\
    trace s' = [(Foreground, Cli)] /\
    Z.testbit (eflags s') IF_BIT = false /\
    driver_data s' = driver_data boot.
Proof.
  apply (@ttywrite_nothing_leaves_interrupts_off sapc silence 5 0 [97; 98] 0
           boot {| dvbaseport := 1016; dvdata := 0 |}).
  - lia.
  - reflexivity.
Defined.

(** ** The critical sections of ttywrite *)

(** C6: on the PC, [ttywrite] of two bytes into an empty queue makes its
    second offer to the transmit queue after the [sti] that ended the
    first pass and without a [cli] of its own, that is, with interrupts
    enabled. *)
Theorem ttywrite_second_attempt_is_unmasked :
  exists s',
    @ttywrite sapc silence 2 0 [97; 98] 2 (with_queues [] [] []) = Ret 2 s' /\
    foreground (trace s')
    = [ Cli; Enq OutQ 97 Enqueued; Outpt 1017 2; Sti;
        Enq OutQ 98 Enqueued; Outpt 1017 2; Sti ] /\
    masked_queue_ops (eflags (with_queues [] [] [])) (foreground (trace s')) = false /\
    masked_queue_ops (eflags (with_queues [] [] []))
      [ Cli; Enq OutQ 97 Enqueued; Outpt 1017 2; Sti ] = true.
Proof. eexists. split; [vm_compute; reflexivity|]. vm_compute. done. Qed.

(** ** ttyread: the whole call *)

Section ReadCall.
Context `{platform}.
Variable env : nat -> list interrupt.

Lemma ttyread_Ret fuel dev buf nchar s r s' :
  ttyread env fuel dev buf nchar s = Ret r s' ->
  fst r = nchar /\ ttyread_loop env fuel buf 0 nchar s = Ret (snd r) s'.
Proof.
  unfold ttyread. intros E. apply bind_Ret in E as (b & s1 & E1 & E2).
  inversion E2; subst. done.
Qed.

(** C4: a call of [ttyread] with [nchar >= 0] that returns, returns
    [nchar], has taken exactly [nchar] bytes out of the receive queue,
    and has put them, in that order, into the first [nchar] places of
    the buffer; they are the first [nchar] of the bytes that were in the
    queue at the call followed by those that arrived during it.  The
    call does return once the queue holds [nchar] bytes, and with an
    empty queue and no interrupt it never returns. *)
Theorem ttyread_returns_exactly_nchar dev buf nchar s :
  0 <= nchar ->
  (forall fuel r buf' s',
     ttyread env fuel dev buf nchar s = Ret (r, buf') s' ->
     r = nchar /\
     exists tr,
       trace s' = trace s ++ tr /\
       Z.of_nat (length (removed InQ tr)) = nchar /\
       buf' = removed InQ tr ++ drop (Z.to_nat nchar) buf /\
       removed InQ tr
       = take (Z.to_nat nchar) (contents (inQueue s) ++ accepted InQ tr) /\
       contents (inQueue s) ++ accepted InQ tr
       = removed InQ tr ++ contents (inQueue s')) /\
  (lines_ok s ->
   nchar <= Z.of_nat (length buf) ->
   nchar <= queuecount (inQueue s) ->
   forall fuel, (Z.to_nat nchar <= fuel)%nat ->
     exists buf' s', ttyread env fuel dev buf nchar s = Ret (nchar, buf') s') /\
  (0 < nchar ->
   contents (inQueue s) = [] ->
   (forall k, env k = []) ->
   forall fuel, ttyread env fuel dev buf nchar s = Spinning).
Proof.
  intros Hn. split; [|split].
  - intros fuel r buf' s' E. apply ttyread_Ret in E as [Hr E]. simpl in *.
    split; [done|].
    apply ttyread_loop_returns in E as (_ & _ & tr & X & L & B & K & _); [|lia].
    exists tr. simpl in B. rewrite Z.sub_0_r in L.
    repeat (split; [done|]). split; [|done].
    rewrite K. symmetry. apply take_app_length'. lia.
  - intros Hok Hbuf Hq fuel Hfuel.
    destruct (ttyread_loop_runs env nchar fuel buf 0 s) as (buf' & s' & E);
      try done; try lia; [by rewrite Z.sub_0_r..|].
    exists buf', s'. unfold ttyread. by rewrite (bind_runs _ _ _ _ _ E).
  - intros Hpos Hq He fuel. unfold ttyread, bind.
    by rewrite ttyread_loop_spins.
Qed.

(** X12: every dequeue of [ttyread] runs with the interrupt flag clear,
    and the flag is back at its old value after each of them, so that
    [ttyread] returns with EFLAGS as the caller had it. *)
Lemma ttyread_masks_every_dequeue fuel dev buf nchar s r s' :
  running s = Foreground ->
  ttyread env fuel dev buf nchar s = Ret r s' ->
  exists tr,
    trace s' = trace s ++ tr /\
    masked_queue_ops (eflags s) (foreground tr) = true /\
    eflags s' = eflags s.
Proof.
  intros Rs E. apply ttyread_Ret in E as [_ E].
  destruct (Z.lt_ge_cases nchar 0) as [Hneg|Hn].
  - rewrite ttyread_loop_done in E by lia. inversion E; subst.
    exists []. by rewrite app_nil_r.
  - apply ttyread_loop_returns in E as (_ & _ & tr & X & _ & _ & _ & Ef & Mk);
      [|lia].
    exists tr. auto.
Qed.

End ReadCall.

Lemma ttyread_witness :
  exists buf' s',
    @ttyread sapc (typing [120; 121; 122]) 4 0 [0; 0; 0; 0] 3 (with_queues [] [] [])
    = Ret (3, buf') s' /\
    exists tr,
      trace s' = tr /\
      buf' = removed InQ tr ++ [0] /\
      removed InQ tr = take 3 (accepted InQ tr).
Proof.
  eassert (@ttyread sapc (typing [120; 121; 122]) 4 0 [0; 0; 0; 0] 3
             (with_queues [] [] []) = Ret (3, _) _) as E
    by (vm_compute; reflexivity).
  destruct (@ttyread_returns_exactly_nchar sapc (typing [120; 121; 122]) 0
              [0; 0; 0; 0] 3 (with_queues [] [] [])) as (Hret & _ & _); [lia|].
  destruct (Hret _ _ _ _ E) as (_ & tr & X & _ & B & Fi & _).
  eexists _, _. split; [exact E|]. exists tr. auto.
Defined.

(** ** ttywrite while the transmitter keeps asking

    When every batch of pending requests holds a transmit-ready one,
    each window taken with interrupts on frees a place in the transmit
    queue, and a byte the full queue refused is accepted at the next
    offer. *)

Section Drained.
Context `{platform}.
Variable env : nat -> list interrupt.

Lemma dispatch_keeps i : keeps handler_step (dispatch i).
Proof.
  unfold dispatch, irq4inthandc, irq3inthandc.
  destruct (irq i); apply keeps_irqinthandc.
Qed.

Lemma dispatch_runs i s : lines_ok s -> runs (dispatch i) s.
Proof.
  intros Hok. unfold dispatch, irq4inthandc, irq3inthandc.
  destruct (irq i); apply irqinthandc_runs; auto.
Qed.

Lemma handler_step_shrinks s s' :
  handler_step s s' ->
  (length (contents (outQueue s')) <= length (contents (outQueue s)))%nat.
Proof.
  intros [_ _ _ _ _ (tr & _ & _ & _ & O & K)].
  specialize (K OutQ). rewrite O, app_nil_r in K. simpl in K.
  rewrite K, length_app. lia.
Qed.

Lemma transmit_case_drains baseport s :
  exists s',
    transmit_case baseport s = Ret tt s' /\
    ttytab s' = ttytab s /\
    contents (outQueue s') = drop 1 (contents (outQueue s)).
Proof.
  unfold transmit_case.
  cbv beta iota delta
    [outpt dequeue_at queuecount_at bind ret modify emit lift].
  unfold queuecount, dequeue. simpl.
  destruct (contents (echoQueue s)) as [|e es] eqn:He;
    destruct (contents (outQueue s)) as [|o os] eqn:Ho;
    simpl; rewrite ?He, ?Ho; simpl; rewrite ?He, ?Ho; simpl;
    (eexists; split; [reflexivity|]); simpl; rewrite ?Ho; done.
Qed.

Lemma receive_case_spares_transmit baseport tty rd s t :
  at_index (ttytab s) tty = Some t ->
  exists s',
    receive_case baseport tty rd s = Ret tt s' /\
    ttytab s' = ttytab s /\
    outQueue s' = outQueue s.
Proof.
  intros Ht. unfold receive_case.
  cbv beta iota delta
    [inpt enqueue_at load_echoflag bind ret modify emit lift].
  simpl. rewrite Ht. simpl.
  destruct (echoflag t =? 0); simpl; (eexists; split; [reflexivity|]); done.
Qed.

Lemma irqinthandc_drains rd dev s d t :
  at_index devtab dev = Some d ->
  at_index (ttytab s) (dvdata d) = Some t ->
  Z.land (rd (dvbaseport d + UART_IIR)) UART_IIR_ID = UART_IIR_THRI ->
  exists s',
    irqinthandc rd dev s = Ret tt s' /\
    contents (outQueue s') = drop 1 (contents (outQueue s)).
Proof.
  intros Hd Ht Hiir. unfold irqinthandc, devtab_entry. rewrite Hd.
  cbv beta iota delta [inpt pic_end_int debug_log bind ret modify emit lift].
  simpl. rewrite Hiir.
  set (s0 := set_debug_record _ _).
  destruct (receive_case_spares_transmit (dvbaseport d) (dvdata d) rd s0 t Ht)
    as (s1 & E1 & T1 & O1).
  destruct (transmit_case_drains (dvbaseport d) s1) as (s2 & E2 & _ & O2).
  destruct (transmit_case_drains (dvbaseport d) s0) as (s3 & E3 & _ & O3).
  rewrite O1 in O2. simpl in O2, O3.
  destruct (UART_IIR_THRI =? UART_IIR_RDI).
  - rewrite E1, E2. unfold outpt, emit, modify. eexists. split; [reflexivity|]. done.
  - rewrite Z.eqb_refl, E3. unfold outpt, emit, modify.
    eexists. split; [reflexivity|]. done.
Qed.

Lemma dispatch_drains i s :
  lines_ok s -> announces_transmit i ->
  exists s',
    dispatch i s = Ret tt s' /\
    contents (outQueue s') = drop 1 (contents (outQueue s)).
Proof.
  intros Hok (d & Hd & Hiir).
  destruct (Hok (line_dev (irq i))) as (d' & t & Hd' & Ht).
  { unfold line_dev. destruct (irq i); auto. }
  assert (d' = d) as -> by congruence.
  unfold dispatch, irq4inthandc, irq3inthandc. unfold line_dev in Hd.
  destruct (irq i); by eapply irqinthandc_drains.
Qed.

Lemma service_drains l :
  Exists announces_transmit l ->
  forall s, lines_ok s ->
    exists s',
      service l s = Ret tt s' /\ handler_step s s' /\
      (length (contents (outQueue s'))
       <= pred (length (contents (outQueue s))))%nat.
Proof.
  induction 1 as [i l Hi|i l _ IH]; intros s Hok; simpl.
  - destruct (dispatch_drains i s Hok Hi) as (s1 & E1 & D).
    pose proof (dispatch_keeps i _ _ _ E1) as K1.
    destruct (service_runs l s1) as ([] & s' & E).
    { eapply lines_ok_ttytab; [apply K1 | done]. }
    pose proof (keeps_service l _ _ _ E) as K.
    exists s'. rewrite (bind_runs _ _ _ _ _ E1).
    split; [exact E|]. split; [by etransitivity|].
    apply handler_step_shrinks in K. rewrite D, length_drop in K. lia.
  - destruct (dispatch_runs i s Hok) as ([] & s1 & E1).
    pose proof (dispatch_keeps i _ _ _ E1) as K1.
    destruct (IH s1) as (s' & E & K & D).
    { eapply lines_ok_ttytab; [apply K1 | done]. }
    exists s'. rewrite (bind_runs _ _ _ _ _ E1).
    split; [exact E|]. split; [by etransitivity|].
    apply handler_step_shrinks in K1. lia.
Qed.

(** Any window: the handlers stay inside the tables, log nothing for
    the foreground, and the transmit queue does not grow. *)
Lemma window_shrinks s :
  lines_ok s ->
  exists s' tr,
    window env s = Ret tt s' /\
    ttytab s' = ttytab s /\ eflags s' = eflags s /\ running s' = running s /\
    capacity (outQueue s') = capacity (outQueue s) /\
    (length (contents (outQueue s')) <= length (contents (outQueue s)))%nat /\
    trace s' = trace s ++ tr /\ foreground tr = [].
Proof.
  intros Hok. destruct (window_runs env s Hok) as (s' & W).
  pose proof W as F.
  apply window_facts in F as (T & Ef & R & Q & tr & X & F & _ & _ & _ & K).
  exists s', tr. specialize (Q OutQ). simpl in Q. repeat (split; [done|]).
  split; [|done]. rewrite K, length_app. lia.
Qed.

(** A window taken with interrupts on and a transmit-ready request
    pending: the transmit queue loses a byte, if it has one. *)
Lemma window_drains s :
  (forall k, Exists announces_transmit (env k)) ->
  lines_ok s ->
  Z.testbit (eflags s) IF_BIT = true ->
  exists s' tr,
    window env s = Ret tt s' /\
    ttytab s' = ttytab s /\ eflags s' = eflags s /\ running s' = running s /\
    capacity (outQueue s') = capacity (outQueue s) /\
    (length (contents (outQueue s'))
     <= pred (length (contents (outQueue s))))%nat /\
    trace s' = trace s ++ tr /\ foreground tr = [].
Proof.
  intros Hfair Hok Hif.
  destruct (window_shrinks s Hok) as (s' & tr & W & T & Ef & R & C & _ & X & F).
  exists s', tr. repeat (split; [done|]). split; [|done].
  revert W. unfold window. rewrite Hif.
  destruct (service_drains (env (clock s)) (Hfair (clock s)) (set_running Handler s))
    as (s1 & E & _ & D).
  { eapply lines_ok_ttytab; [|exact Hok]. done. }
  unfold bind, modify. rewrite E. intros W. inversion W; subst; clear W.
  simpl in *. done.
Qed.

Ltac any_window Hok :=
  match goal with
  | |- context [window env ?s0] =>
      let s1 := fresh "s" in let tw := fresh "tw" in let W := fresh "W" in
      let T := fresh "T" in let Ef := fresh "Ef" in let R := fresh "R" in
      let C := fresh "C" in let L := fresh "L" in
      let X := fresh "X" in let F := fresh "F" in
      destruct (window_shrinks s0) as (s1 & tw & W & T & Ef & R & C & L & X & F);
        [eapply lines_ok_ttytab; [|exact Hok]; simpl; congruence|];
      rewrite W; simpl in T, Ef, R, C, L, X; simpl
  end.

Ltac open_window Hfair Hok :=
  match goal with
  | |- context [window env ?s0] =>
      let s1 := fresh "s" in let tw := fresh "tw" in let W := fresh "W" in
      let T := fresh "T" in let Ef := fresh "Ef" in let R := fresh "R" in
      let C := fresh "C" in let L := fresh "L" in
      let X := fresh "X" in let F := fresh "F" in
      destruct (window_drains s0 Hfair) as (s1 & tw & W & T & Ef & R & C & L & X & F);
        [eapply lines_ok_ttytab; [|exact Hok]; simpl; congruence
        |simpl; rewrite ?Ef; simpl; by apply Z.setbit_eq|];
      rewrite W; simpl in T, Ef, R, C, L, X; simpl
  end.

(** With room for one byte at the start of a pass, every pass puts its
    byte into the queue and ends with room for the next one. *)
Lemma ttywrite_loop_drained baseport buf nchar fuel :
  (forall k, Exists announces_transmit (env k)) ->
  nchar <= Z.of_nat (length buf) ->
  forall i s,
    0 <= i -> lines_ok s ->
    1 <= capacity (outQueue s) ->
    (nchar <= i \/ queuecount (outQueue s) < capacity (outQueue s)) ->
    (Z.to_nat (nchar - i) <= fuel)%nat ->
    runs (ttywrite_loop env fuel baseport buf i nchar) s.
Proof.
  intros Hfair Hbuf.
  induction fuel as [|fuel IH]; intros i s Hi Hok Hcap Hroom Hfuel.
  - exists tt, s. apply ttywrite_loop_done. lia.
  - destruct (Z.lt_ge_cases i nchar) as [Hlt|Hge].
    2:{ exists tt, s. by apply ttywrite_loop_done. }
    destruct Hroom as [Hroom|Hroom]; [lia|].
    unfold runs. rewrite ttywrite_loop_unfold by done.
    destruct (at_index_in_range buf i) as (c & Hc); [lia|].
    rewrite Hc.
    cbv beta iota delta [enqueue_at sti outpt debug_log bind modify emit ret lift].
    unfold enqueue. simpl.
    destruct (queuecount (outQueue s) <? capacity (outQueue s)) eqn:Hfull;
      [|apply Z.ltb_ge in Hfull; lia].
    simpl. any_window Hok. any_window Hok. open_window Hfair Hok.
    apply IH; try lia.
    + eapply lines_ok_ttytab; [|exact Hok]. congruence.
    + right. unfold queuecount in *. rewrite length_app in L. simpl in L. lia.
Qed.

(** A queue that is full at the start of a pass refuses the byte; the
    window after [sti] frees a place, the next pass offers the same byte
    again and the queue takes it. *)
Lemma ttywrite_loop_retries baseport buf nchar fuel :
  (forall k, Exists announces_transmit (env k)) ->
  nchar <= Z.of_nat (length buf) ->
  forall i s c,
    0 <= i < nchar -> lines_ok s -> running s = Foreground ->
    1 <= capacity (outQueue s) ->
    queuecount (outQueue s) = capacity (outQueue s) ->
    at_index buf i = Some c ->
    (S (Z.to_nat (nchar - i)) <= fuel)%nat ->
    exists s' tr rest,
      ttywrite_loop env fuel baseport buf i nchar s = Ret tt s' /\
      trace s' = trace s ++ tr /\
      foreground tr
      = Enq OutQ c FULLQUE :: Sti
          :: Enq OutQ c Enqueued :: Outpt (baseport + UART_IER) UART_IER_THRI
          :: Sti :: rest.
Proof.
  intros Hfair Hbuf i s c Hi Hok Rs Hcap Hfull Hc Hfuel.
  destruct fuel as [|[|fuel]]; [lia|lia|].
  rewrite ttywrite_loop_unfold by lia. rewrite Hc.
  cbv beta iota delta [enqueue_at sti outpt debug_log bind modify emit ret lift].
  unfold enqueue. simpl.
  destruct (queuecount (outQueue s) <? capacity (outQueue s)) eqn:E;
    [apply Z.ltb_lt in E; lia|].
  simpl. any_window Hok. open_window Hfair Hok.
  destruct (i <? nchar) eqn:Hlt; [|apply Z.ltb_ge in Hlt; lia].
  rewrite Hc.
  cbv beta iota delta [enqueue_at sti outpt debug_log bind modify emit ret lift].
  unfold enqueue. simpl.
  destruct (queuecount (outQueue s1) <? capacity (outQueue s1)) eqn:E1.
  2:{ apply Z.ltb_ge in E1. unfold queuecount in *. lia. }
  simpl. any_window Hok. any_window Hok. open_window Hfair Hok.
  match goal with
  | |- context [ttywrite_loop env fuel baseport buf (i + 1) nchar ?s5] =>
      destruct (ttywrite_loop_drained baseport buf nchar fuel Hfair Hbuf (i + 1) s5)
        as ([] & s' & El)
  end.
  { lia. }
  { eapply lines_ok_ttytab; [|exact Hok]. congruence. }
  { lia. }
  { right. unfold queuecount in *. rewrite length_app in L1. simpl in L1. lia. }
  { lia. }
  pose proof El as Xl.
  apply ttywrite_loop_returns in Xl as (_ & _ & tl & Xl & _); [|lia].
  exists s', (drop (length (trace s)) (trace s')), (foreground tl).
  split; [exact El|].
  rewrite Xl, X3, X2, X1, X0, X. rewrite R2, R1, R0, R, Rs.
  rewrite <- !app_assoc, drop_app_length.
  split; [done|].
  rewrite !foreground_app, F, F0, F1, F2, F3. done.
Qed.

(** Whatever the queue holds at the call, fuel for one pass more than
    there are bytes is enough. *)
Lemma ttywrite_loop_returns_when_drained baseport buf nchar fuel :
  (forall k, Exists announces_transmit (env k)) ->
  nchar <= Z.of_nat (length buf) ->
  forall i s,
    0 <= i -> lines_ok s ->
    1 <= capacity (outQueue s) ->
    queuecount (outQueue s) <= capacity (outQueue s) ->
    (S (Z.to_nat (nchar - i)) <= fuel)%nat ->
    runs (ttywrite_loop env fuel baseport buf i nchar) s.
Proof.
  intros Hfair Hbuf i s Hi Hok Hcap Hbound Hfuel.
  destruct (Z.lt_ge_cases i nchar) as [Hlt|Hge].
  2:{ exists tt, s. by apply ttywrite_loop_done. }
  destruct (Z.lt_ge_cases (queuecount (outQueue s)) (capacity (outQueue s)))
    as [Hroom|Hfull].
  { apply ttywrite_loop_drained; auto. lia. }
  destruct fuel as [|fuel]; [lia|].
  unfold runs. rewrite ttywrite_loop_unfold by done.
  destruct (at_index_in_range buf i) as (c & Hc); [lia|].
  rewrite Hc.
  cbv beta iota delta [enqueue_at sti outpt debug_log bind modify emit ret lift].
  unfold enqueue. simpl.
  destruct (queuecount (outQueue s) <? capacity (outQueue s)) eqn:E;
    [apply Z.ltb_lt in E; lia|].
  simpl. any_window Hok. open_window Hfair Hok.
  apply ttywrite_loop_drained; auto; try lia.
  - eapply lines_ok_ttytab; [|exact Hok]. congruence.
  - right. unfold queuecount in *. lia.
Qed.

End Drained.

(** ** ttywrite: the whole call *)

Section WriteCall.
Context `{platform}.
Variable env : nat -> list interrupt.

Lemma ttywrite_Ret fuel dev buf nchar s r s' d :
  at_index devtab dev = Some d ->
  ttywrite env fuel dev buf nchar s = Ret r s' ->
  r = nchar /\
  ttywrite_loop env fuel (dvbaseport d) buf 0 nchar
    (write_eflags (Z.clearbit (eflags s) IF_BIT) (log_event Cli s)) = Ret tt s'.
Proof.
  intros Hd. unfold ttywrite, devtab_entry. rewrite Hd.
  cbv beta iota delta [cli bind ret modify emit lift].
  destruct (ttywrite_loop _ _ _ _ _ _ _) as [[] s1| |]; try discriminate.
  intros E. by inversion E.
Qed.

(** C5: a call of [ttywrite] with [nchar >= 0] that returns, returns
    [nchar] and has put the first [nchar] bytes of the buffer into the
    transmit queue, in their order; a byte the full queue refuses is
    offered again, and each accepted byte is followed by the write of
    the transmit-interrupt bit to the interrupt-enable register.  The
    call does return when the queue has room for the bytes, and with a
    full queue and no interrupt it never returns.  When every batch of
    pending requests holds a transmit-ready one the call returns [nchar]
    whatever the queue holds; if the queue is full at the call, the
    first byte is refused, interrupts are turned on, and the same byte
    is offered again and accepted. *)
Theorem ttywrite_queues_every_byte dev buf nchar s d :
  0 <= nchar ->
  at_index devtab dev = Some d ->
  running s = Foreground ->
  (forall fuel r s',
     ttywrite env fuel dev buf nchar s = Ret r s' ->
     r = nchar /\
     exists tr rest,
       trace s' = trace s ++ tr /\
       foreground tr = Cli :: rest /\
       write_protocol (dvbaseport d + UART_IER) UART_IER_THRI
         (take (Z.to_nat nchar) buf) rest /\
       accepted OutQ tr = take (Z.to_nat nchar) buf /\
       Z.of_nat (length (accepted OutQ tr)) = nchar /\
       contents (outQueue s) ++ take (Z.to_nat nchar) buf
       = removed OutQ tr ++ contents (outQueue s')) /\
  (lines_ok s ->
   nchar <= Z.of_nat (length buf) ->
   nchar <= capacity (outQueue s) - queuecount (outQueue s) ->
   forall fuel, (Z.to_nat nchar <= fuel)%nat ->
     exists s', ttywrite env fuel dev buf nchar s = Ret nchar s') /\
  (0 < nchar ->
   nchar <= Z.of_nat (length buf) ->
   capacity (outQueue s) <= queuecount (outQueue s) ->
   (forall k, env k = []) ->
   forall fuel, ttywrite env fuel dev buf nchar s = Spinning) /\
  ((forall k, Exists announces_transmit (env k)) ->
   lines_ok s ->
   nchar <= Z.of_nat (length buf) ->
   1 <= capacity (outQueue s) ->
   queuecount (outQueue s) <= capacity (outQueue s) ->
   forall fuel, (S (Z.to_nat nchar) <= fuel)%nat ->
     exists s',
       ttywrite env fuel dev buf nchar s = Ret nchar s' /\
       (0 < nchar ->
        queuecount (outQueue s) = capacity (outQueue s) ->
        exists c tr rest,
          at_index buf 0 = Some c /\
          trace s' = trace s ++ tr /\
          foreground tr
          = Cli :: Enq OutQ c FULLQUE :: Sti
              :: Enq OutQ c Enqueued
              :: Outpt (dvbaseport d + UART_IER) UART_IER_THRI
              :: Sti :: rest)).
Proof.
  intros Hn Hd Rs. split; [|split; [|split]].
  - intros fuel r s' E. apply (ttywrite_Ret _ _ _ _ _ _ _ _ Hd) in E as [Hr E].
    split; [done|].
    apply ttywrite_loop_returns in E as (_ & _ & tr & X & P & A & L & K); [|lia].
    simpl in *. rewrite Z.sub_0_r in L.
    change (Z.to_nat 0) with 0%nat in P, A. rewrite drop_0 in P, A.
    exists ((running s, Cli) :: tr), (foreground tr).
    split; [by rewrite X, <- app_assoc|].
    split; [by rewrite Rs|]. split; [by apply P|].
    split; [done|]. split; [done|]. rewrite <- A. exact K.
  - intros Hok Hbuf Hq fuel Hfuel. unfold ttywrite, devtab_entry. rewrite Hd.
    cbv beta iota delta [cli bind ret modify emit lift].
    match goal with
    | |- context [ttywrite_loop env fuel ?b buf 0 nchar ?s1] =>
        assert (runs (ttywrite_loop env fuel b buf 0 nchar) s1) as ([] & s' & E)
    end.
    { apply ttywrite_loop_runs; simpl; rewrite ?Z.sub_0_r; try done; lia. }
    rewrite E. eauto.
  - intros Hpos Hbuf Hq He fuel. unfold ttywrite, devtab_entry. rewrite Hd.
    cbv beta iota delta [cli bind ret modify emit lift].
    rewrite ttywrite_loop_spins; first [done | lia].
  - intros Hfair Hok Hbuf Hcap Hbound fuel Hfuel.
    unfold ttywrite, devtab_entry. rewrite Hd.
    cbv beta iota delta [cli bind ret modify emit lift].
    match goal with
    | |- context [ttywrite_loop env fuel ?b buf 0 nchar ?s1] =>
        set (s0 := s1);
        assert (runs (ttywrite_loop env fuel b buf 0 nchar) s0) as ([] & s' & E)
    end.
    { apply ttywrite_loop_returns_when_drained;
        simpl; rewrite ?Z.sub_0_r; try done; lia. }
    rewrite E. exists s'. split; [done|].
    intros Hpos Hfull.
    destruct (at_index_in_range buf 0) as (c & Hc); [lia|].
    destruct (ttywrite_loop_retries env (dvbaseport d) buf nchar fuel
                Hfair Hbuf 0 s0 c)
      as (s'' & tr & rest & E' & X & F);
      simpl; rewrite ?Z.sub_0_r; try done; try lia.
    rewrite E in E'. inversion E'; subst s''; clear E'.
    exists c, ((running s, Cli) :: tr), rest.
    split; [done|]. split; [by rewrite X; simpl; rewrite <- app_assoc|].
    simpl. by rewrite Rs, F.
Qed.

End WriteCall.

Lemma ttywrite_witness :
  (exists s',
     @ttywrite sapc silence 2 0 [97; 98] 2 (with_queues [] [] []) = Ret 2 s' /\
     accepted OutQ (trace s') = [97; 98] /\
     contents (outQueue s') = [97; 98]) /\
  (exists s' rest,
     @ttywrite sapc draining 2 0 [97] 1 (with_queues [] [1; 2; 3; 4; 5; 6] [])
     = Ret 1 s' /\
     foreground (trace s')
     = Cli :: Enq OutQ 97 FULLQUE :: Sti
         :: Enq OutQ 97 Enqueued :: Outpt 1017 2 :: Sti :: rest /\
     accepted OutQ (trace s') = [97]).
Proof.
  split.
  - destruct (@ttywrite_queues_every_byte sapc silence 0 [97; 98] 2
                (with_queues [] [] []) {| dvbaseport := 1016; dvdata := 0 |})
      as (Hret & Hrun & _); [lia | reflexivity | reflexivity |].
    destruct (Hrun) with (fuel := 2%nat) as (s' & E).
    + intros dev [->| ->]; eexists _, _; split; reflexivity.
    + simpl. lia.
    + vm_compute. discriminate.
    + simpl. lia.
    + exists s'. split; [exact E|].
      destruct (Hret _ _ _ E) as (_ & tr & rest & X & _ & _ & A & _ & K).
      simpl in X. subst tr. split; [exact A|].
      assert (removed OutQ (trace s') = []) as Hnone.
      { vm_compute in E. inversion E. reflexivity. }
      rewrite Hnone in K. simpl in K. by rewrite <- K.
  - destruct (@ttywrite_queues_every_byte sapc draining 0 [97] 1
                (with_queues [] [1; 2; 3; 4; 5; 6] [])
                {| dvbaseport := 1016; dvdata := 0 |})
      as (Hret & _ & _ & Hretry); [lia | reflexivity | reflexivity |].
    destruct (Hretry) with (fuel := 2%nat) as (s' & E & Hshape).
    + intros k. constructor. eexists. split; reflexivity.
    + intros dev [->| ->]; eexists _, _; split; reflexivity.
    + simpl. lia.
    + vm_compute. discriminate.
    + vm_compute. discriminate.
    + simpl. lia.
    + destruct Hshape as (c & tr & rest & Hc & X & F); [lia | reflexivity |].
      inversion Hc; subst c; clear Hc.
      destruct (Hret _ _ _ E) as (_ & tr' & _ & X' & _ & _ & A & _).
      simpl in X, X'. subst tr tr'.
      exists s', rest. split; [exact E|]. split; [exact F|exact A].
Defined.

(** ** Two lines, one set of queues *)

Lemma store_index_other {A} (l l' : list A) i k x :
  store_index l i x = Some l' -> k <> i -> at_index l' k = at_index l k.
Proof.
  unfold store_index. intros E Hk.
  destruct (0 <=? i) eqn:E0; [|done].
  destruct (i <? Z.of_nat (length l)); [|done].
  simpl in E. inversion E; subst. apply Z.leb_le in E0.
  by apply at_index_insert_ne.
Qed.

(** C3, as stated, fails: initialising the second line empties the
    receive queue the first line works on. *)
Lemma ttyinit_resets_queues_of_other_line :
  ~ (forall s',
       @ttyinit sapc 1 (with_queues [120] [] []) = Ret tt s' ->
       line_queues 0 s' = line_queues 0 (with_queues [120] [] [])).
Proof.
  intros Hclaim.
  eassert (@ttyinit sapc 1 (with_queues [120] [] []) = Ret tt _) as E
    by (vm_compute; reflexivity).
  specialize (Hclaim _ E). vm_compute in Hclaim. discriminate.
Qed.

Section Lines.
Context `{platform}.
Variable env : nat -> list interrupt.

(** C3, amended: the receive, transmit and echo queues exist once and
    are the queues of every line; what a line has of its own is its echo
    flag.  An operation on one line leaves the [struct tty] of any other
    line as it was: [ttyinit] and [ttycontrol] write only the struct of
    their own line, and [ttyread], [ttywrite] and the interrupt handler
    write none. *)
Theorem lines_share_queues_keep_own_echoflag dev other s d :
  at_index devtab dev = Some d ->
  other <> dvdata d ->
  (forall dev', line_queues dev' s = line_queues dev s) /\
  (forall a s', ttyinit dev s = Ret a s' ->
     at_index (ttytab s') other = at_index (ttytab s) other) /\
  (forall fncode val r s', ttycontrol dev fncode val s = Ret r s' ->
     at_index (ttytab s') other = at_index (ttytab s) other) /\
  (forall fuel buf nchar r s', ttyread env fuel dev buf nchar s = Ret r s' ->
     ttytab s' = ttytab s) /\
  (forall fuel buf nchar r s', ttywrite env fuel dev buf nchar s = Ret r s' ->
     ttytab s' = ttytab s) /\
  (forall rd a s', irqinthandc rd dev s = Ret a s' -> ttytab s' = ttytab s).
Proof.
  intros Hd Hne. split; [done|]. split; [|split; [|split; [|split]]].
  - intros a s'. unfold ttyinit, devtab_entry.
    cbv beta iota delta
      [init_queue_at set_intr_gate pic_enable_irq outpt store_echoflag
       kprintf_bad_entry bind modify emit ret lift].
    simpl. rewrite Hd.
    destruct (dvbaseport d =? COM1_BASE); simpl;
      [|destruct (dvbaseport d =? COM2_BASE); simpl].
    + destruct (store_index _ _ _) as [tab|] eqn:St; [|discriminate].
      intros E. inversion E; subst. simpl. by eapply store_index_other.
    + destruct (store_index _ _ _) as [tab|] eqn:St; [|discriminate].
      intros E. inversion E; subst. simpl. by eapply store_index_other.
    + intros E. by inversion E.
  - intros fncode val r s'. unfold ttycontrol, devtab_entry, bind, store_echoflag.
    rewrite Hd. simpl. destruct (fncode =? ECHOCONTROL).
    + destruct (store_index _ _ _) as [tab|] eqn:St; [|discriminate].
      intros E. inversion E; subst. simpl. by eapply store_index_other.
    + intros E. by inversion E.
  - intros fuel buf nchar r s' E. apply ttyread_Ret in E as [_ E].
    destruct (Z.lt_ge_cases nchar 0) as [Hneg|Hn].
    + rewrite ttyread_loop_done in E by lia. by inversion E.
    + apply ttyread_loop_returns in E as (T & _); [done|lia].
  - intros fuel buf nchar r s' E.
    apply (ttywrite_Ret env _ _ _ _ _ _ _ _ Hd) in E as [_ E].
    destruct (Z.lt_ge_cases nchar 0) as [Hneg|Hn].
    + rewrite ttywrite_loop_done in E by lia. by inversion E.
    + apply ttywrite_loop_returns in E as (T & _); [done|lia].
  - intros rd a s' E. by apply keeps_irqinthandc in E as [T].
Qed.

End Lines.

Lemma lines_witness :
  line_queues 1 (with_queues [120] [] []) = line_queues 0 (with_queues [120] [] []) /\
  exists s',
    @ttycontrol sapc 0 1 0 (with_queues [120] [] []) = Ret 0 s' /\
    at_index (ttytab s') 0 = Some {| echoflag := 0 |} /\
    at_index (ttytab s') 1 = Some {| echoflag := 1 |}.
Proof.
  destruct (@lines_share_queues_keep_own_echoflag sapc silence 0 1
              (with_queues [120] [] []) {| dvbaseport := 1016; dvdata := 0 |})
    as (Hq & _ & Hc & _); [reflexivity | discriminate |].
  split; [apply Hq|].
  eassert (@ttycontrol sapc 0 1 0 (with_queues [120] [] []) = Ret 0 _) as E
    by (vm_compute; reflexivity).
  eexists. split; [exact E|]. split; [reflexivity|]. by rewrite (Hc _ _ _ _ E).
Defined.

(** ** Scenarios *)

(** A queue of capacity 6 takes six bytes and refuses the seventh; the
    bytes come out in the order they went in, and an empty queue gives
    [EMPTYQUE]. *)
Example queue_fills_and_drains :
  let full := foldl (fun q c => snd (enqueue q c)) (init_queue 6)
                [97; 98; 99; 100; 101; 102] in
  contents full = [97; 98; 99; 100; 101; 102] /\
  enqueue full 103 = (FULLQUE, full) /\
  fst (dequeue full) = Byte 97 /\
  contents (snd (dequeue full)) = [98; 99; 100; 101; 102] /\
  dequeue (init_queue 6) = (EMPTYQUE, init_queue 6).
Proof. vm_compute. done. Qed.

(** With echo switched off a received byte goes to the receive queue
    only, and nothing is transmitted. *)
Example no_echo_when_switched_off :
  exists s1 s2,
    @ttycontrol sapc 0 1 0 (with_queues [] [] []) = Ret 0 s1 /\
    @irq4inthandc sapc (uart 1016 4 113) s1 = Ret tt s2 /\
    contents (inQueue s2) = [113] /\
    contents (echoQueue s2) = [] /\
    written 1016 (trace s2) = [].
Proof.
  eexists _, _. split; [vm_compute; reflexivity|].
  split; [vm_compute; reflexivity|]. vm_compute. done.
Qed.

(** ** What every routine of the driver keeps

    A relation that holds across each elementary change of the state
    holds across the handlers, the windows and the loops of every state
    of the driver. *)

Lemma keeps_modify R (f : state -> state) :
  (forall s, R s (f s)) -> keeps R (modify f).
Proof. intros Hf s a s' E. inversion E. apply Hf. Qed.

Lemma keeps_stuck R {A} (m : M A) :
  (forall s, m s = Fault \/ m s = Spinning) -> keeps R m.
Proof. intros Hm s a s' E. destruct (Hm s) as [E'|E']; congruence. Qed.

Lemma service_with_dispatch `{platform} l : service l = service_with dispatch l.
Proof. induction l as [|i l IH]; simpl; [done|]. by rewrite IH. Qed.

Lemma window_with_dispatch `{platform} env s :
  window env s = window_with dispatch env s.
Proof. unfold window, window_with. by rewrite service_with_dispatch. Qed.

Section Preserved.
Context `{platform}.
Variable R : state -> state -> Prop.
Context `{!Reflexive R, !Transitive R}.
Hypothesis R_log : forall e s, R s (log_event e s).
Hypothesis R_eflags : forall v s, R s (write_eflags v s).
Hypothesis R_debug : forall l s, R s (set_debug_record (debug_record s ++ l) s).
Hypothesis R_enqueue :
  forall q c s, R s (set_queue q (snd (enqueue (queue_of q s) c)) s).
Hypothesis R_dequeue :
  forall q s, R s (set_queue q (snd (dequeue (queue_of q s))) s).
Hypothesis R_running : forall c s, R s (set_running c s).
Hypothesis R_tick : forall s, R s (tick s).

Lemma every_emit e : keeps R (emit e).
Proof. by apply keeps_modify. Qed.

Lemma every_get_eflags : keeps R get_eflags.
Proof. intros s a s' E. inversion E. reflexivity. Qed.

Lemma every_cli : keeps R cli.
Proof.
  apply keeps_bind; [done | apply every_emit | intros _].
  apply keeps_modify. intros s. apply R_eflags.
Qed.

Lemma every_sti : keeps R sti.
Proof.
  apply keeps_bind; [done | apply every_emit | intros _].
  apply keeps_modify. intros s. apply R_eflags.
Qed.

Lemma every_set_eflags v : keeps R (set_eflags v).
Proof.
  apply keeps_bind; [done | apply every_emit | intros _].
  by apply keeps_modify.
Qed.

Lemma every_inpt rd port : keeps R (inpt rd port).
Proof.
  apply keeps_bind; [done | apply every_emit | intros _]. by apply keeps_ret.
Qed.

Lemma every_outpt port v : keeps R (outpt port v).
Proof. apply every_emit. Qed.

Lemma every_pic_end_int : keeps R pic_end_int.
Proof. apply every_emit. Qed.

Lemma every_debug_log msg : keeps R (debug_log msg).
Proof. apply keeps_modify. intros s. apply R_debug. Qed.

Lemma every_enqueue_at q c : keeps R (enqueue_at q c).
Proof.
  intros s a s' E. inversion E; subst; clear E.
  etransitivity; [apply R_enqueue | apply R_log].
Qed.

Lemma every_dequeue_at q : keeps R (dequeue_at q).
Proof.
  intros s a s' E. inversion E; subst; clear E.
  etransitivity; [apply R_dequeue | apply R_log].
Qed.

Lemma every_queuecount_at q : keeps R (queuecount_at q).
Proof. intros s a s' E. inversion E. reflexivity. Qed.

Lemma every_load_echoflag tty : keeps R (load_echoflag tty).
Proof.
  intros s a s' E. unfold load_echoflag in E.
  destruct (at_index (ttytab s) tty); inversion E. reflexivity.
Qed.

Lemma every_devtab_entry dev : keeps R (devtab_entry dev).
Proof. by apply keeps_lift. Qed.

Lemma every_spin {A} : keeps R (@spin A).
Proof. apply keeps_stuck. auto. Qed.

Create HintDb every.

#[local] Hint Resolve every_emit every_get_eflags every_cli every_sti
  every_set_eflags every_inpt every_outpt every_pic_end_int every_debug_log
  every_enqueue_at every_dequeue_at every_queuecount_at every_load_echoflag
  every_devtab_entry every_spin : every.

Ltac every_step :=
  repeat first
    [ solve [auto with every]
    | apply keeps_ret; assumption
    | apply keeps_lift; assumption
    | apply keeps_bind; [assumption | | intros ?]
    | lazymatch goal with
      | |- keeps _ (if ?b then _ else _) => destruct b
      | |- keeps _ (match ?x with _ => _ end) => destruct x
      end ].

Lemma every_irqinthandc rd dev : keeps R (irqinthandc rd dev).
Proof. unfold irqinthandc, receive_case, transmit_case. every_step. Qed.

Lemma every_interim_irqinthandc rd dev : keeps R (Interim.irqinthandc rd dev).
Proof. unfold Interim.irqinthandc. every_step. Qed.

Lemma every_earlier_irqinthandc rd dev : keeps R (Earlier.irqinthandc rd dev).
Proof. unfold Earlier.irqinthandc. every_step. Qed.

Lemma every_service_with h l :
  (forall i, keeps R (h i)) -> keeps R (service_with h l).
Proof.
  intros Hh. induction l as [|i l IH]; simpl; [by apply keeps_ret|].
  apply keeps_bind; auto.
Qed.

Lemma every_window_with h env :
  (forall i, keeps R (h i)) -> keeps R (window_with h env).
Proof.
  intros Hh s a s' E. unfold window_with in E.
  destruct (Z.testbit (eflags s) IF_BIT); [|inversion E; reflexivity].
  revert E. apply keeps_bind; [done | by apply keeps_modify | intros _].
  apply keeps_bind; [done | by apply every_service_with | intros _].
  apply keeps_bind; [done | by apply keeps_modify | intros _].
  by apply keeps_modify.
Qed.

Lemma every_dispatch i : keeps R (dispatch i).
Proof.
  unfold dispatch, irq4inthandc, irq3inthandc.
  destruct (irq i); apply every_irqinthandc.
Qed.

Lemma every_earlier_dispatch i : keeps R (Earlier.dispatch i).
Proof.
  unfold Earlier.dispatch, Earlier.irq4inthandc, Earlier.irq3inthandc.
  destruct (irq i); apply every_earlier_irqinthandc.
Qed.

Lemma every_window env : keeps R (window env).
Proof.
  intros s a s' E. rewrite window_with_dispatch in E. revert E.
  apply every_window_with, every_dispatch.
Qed.

Lemma every_ttyread_loop env fuel :
  forall buf i nchar, keeps R (ttyread_loop env fuel buf i nchar).
Proof.
  pose proof (every_window env).
  induction fuel as [|fuel IH]; intros buf i nchar; simpl; every_step.
Qed.

Lemma every_ttyread env fuel dev buf nchar :
  keeps R (ttyread env fuel dev buf nchar).
Proof.
  pose proof (every_ttyread_loop env fuel).
  unfold ttyread. every_step.
Qed.

Lemma every_ttywrite_loop env fuel :
  forall baseport buf i nchar,
    keeps R (ttywrite_loop env fuel baseport buf i nchar).
Proof.
  pose proof (every_window env).
  induction fuel as [|fuel IH]; intros baseport buf i nchar; simpl; every_step.
Qed.

Lemma every_ttywrite env fuel dev buf nchar :
  keeps R (ttywrite env fuel dev buf nchar).
Proof.
  pose proof (every_ttywrite_loop env fuel).
  unfold ttywrite. every_step.
Qed.

Lemma every_earlier_ttyread_loop env n :
  forall buf i, keeps R (Earlier.ttyread_loop env n buf i).
Proof.
  pose proof (every_window_with _ env every_earlier_dispatch).
  induction n as [|n IH]; intros buf i; simpl; every_step.
Qed.

Lemma every_earlier_ttyread env dev buf nchar :
  keeps R (Earlier.ttyread env dev buf nchar).
Proof.
  pose proof (every_earlier_ttyread_loop env).
  unfold Earlier.ttyread. every_step.
Qed.

Lemma every_earlier_ttywrite_loop env n :
  forall baseport buf i, keeps R (Earlier.ttywrite_loop env n baseport buf i).
Proof.
  pose proof (every_window_with _ env every_earlier_dispatch).
  induction n as [|n IH]; intros baseport buf i; simpl; every_step.
Qed.

Lemma every_earlier_ttywrite env dev buf nchar :
  keeps R (Earlier.ttywrite env dev buf nchar).
Proof.
  pose proof (every_earlier_ttywrite_loop env).
  unfold Earlier.ttywrite. every_step.
Qed.

End Preserved.

(** ** Invariants of the queues and of the debug log *)

#[global] Instance keeps_bound_refl : Reflexive keeps_bound.
Proof. intros s. split; done. Qed.

#[global] Instance keeps_bound_trans : Transitive keeps_bound.
Proof.
  intros s1 s2 s3 [C1 B1] [C2 B2]. split; [|auto].
  intros q. by rewrite C2, C1.
Qed.

Lemma bounded_same_queues s s' :
  inQueue s' = inQueue s -> outQueue s' = outQueue s ->
  echoQueue s' = echoQueue s -> keeps_bound s s'.
Proof.
  intros HI HO HE.
  assert (forall q, queue_of q s' = queue_of q s) as Hq
    by (intros []; simpl; done).
  split; [intros q; by rewrite Hq|]. intros Hb q. rewrite Hq. apply Hb.
Qed.

Lemma enqueue_bounded q c :
  capacity (snd (enqueue q c)) = capacity q /\
  (queuecount q <= capacity q ->
   queuecount (snd (enqueue q c)) <= capacity (snd (enqueue q c))).
Proof.
  unfold enqueue. destruct (queuecount q <? capacity q) eqn:E; simpl; [|done].
  split; [done|]. intros _. apply Z.ltb_lt in E.
  unfold queuecount in *. simpl. rewrite length_app. simpl. lia.
Qed.

Lemma dequeue_bounded q :
  capacity (snd (dequeue q)) = capacity q /\
  (queuecount q <= capacity q ->
   queuecount (snd (dequeue q)) <= capacity (snd (dequeue q))).
Proof.
  unfold dequeue, queuecount. destruct q as [cap [|c l]]; simpl; [done|].
  split; [done|]. lia.
Qed.

Lemma keeps_bound_set_queue q v s :
  capacity v = capacity (queue_of q s) ->
  (queuecount (queue_of q s) <= capacity (queue_of q s) ->
   queuecount v <= capacity v) ->
  keeps_bound s (set_queue q v s).
Proof.
  intros Hc Hb. split.
  - intros q0. destruct q, q0; simpl in *; done.
  - intros Hs q0. pose proof (Hs q0). pose proof (Hs q).
    destruct q, q0; simpl in *; auto.
Qed.

#[global] Instance log_grows_refl : Reflexive log_grows.
Proof. intros s. unfold log_grows. done. Qed.

#[global] Instance log_grows_trans : Transitive log_grows.
Proof. intros s1 s2 s3. unfold log_grows. by intros ->. Qed.

Ltac bound_step :=
  try typeclasses eauto; intros;
  first [ by apply bounded_same_queues
        | apply keeps_bound_set_queue; apply enqueue_bounded
        | apply keeps_bound_set_queue; apply dequeue_bounded ].

Ltac log_step :=
  try typeclasses eauto; intros; unfold log_grows; simpl;
  first [ done | by apply prefix_app_r ].

Section Invariants.
Context `{platform}.
Variable env : nat -> list interrupt.

(** X1: [ttyinit] leaves three queues of capacity 6 holding no more
    than that, and from a state where no queue holds more than its
    capacity the interrupt handler, [ttyread] and [ttywrite] lead to
    such a state again, with the capacities as they were. *)
Theorem queues_never_exceed_capacity rd dev fuel buf nchar s :
  (forall a s', ttyinit dev s = Ret a s' ->
     bounded s' /\ forall q, capacity (queue_of q s') = MAXBUF) /\
  (bounded s ->
   (forall a s', irqinthandc rd dev s = Ret a s' ->
      bounded s' /\ forall q, capacity (queue_of q s') = capacity (queue_of q s)) /\
   (forall r s', ttyread env fuel dev buf nchar s = Ret r s' ->
      bounded s' /\ forall q, capacity (queue_of q s') = capacity (queue_of q s)) /\
   (forall r s', ttywrite env fuel dev buf nchar s = Ret r s' ->
      bounded s' /\ forall q, capacity (queue_of q s') = capacity (queue_of q s))).
Proof.
  assert (forall A (m : M A), keeps keeps_bound m ->
            bounded s -> forall a s', m s = Ret a s' ->
            bounded s' /\
            forall q, capacity (queue_of q s') = capacity (queue_of q s)) as Use.
  { intros A m K Hb a s' E. destruct (K _ _ _ E) as [C B]. auto. }
  split.
  - intros a s'. unfold ttyinit, devtab_entry.
    cbv beta iota delta
      [init_queue_at set_intr_gate pic_enable_irq outpt store_echoflag
       kprintf_bad_entry bind modify emit ret lift].
    simpl. destruct (at_index devtab dev) as [d|]; [|discriminate]. simpl.
    assert (forall s1 : state,
              inQueue s1 = init_queue MAXBUF -> outQueue s1 = init_queue MAXBUF ->
              echoQueue s1 = init_queue MAXBUF ->
              bounded s1 /\ forall q, capacity (queue_of q s1) = MAXBUF) as Fresh.
    { intros s1 HI HO HE. split; intros []; simpl; rewrite ?HI, ?HO, ?HE; done. }
    destruct (dvbaseport d =? COM1_BASE); simpl;
      [|destruct (dvbaseport d =? COM2_BASE); simpl].
    + destruct (store_index _ _ _); [|discriminate].
      intros E. inversion E; subst. by apply Fresh.
    + destruct (store_index _ _ _); [|discriminate].
      intros E. inversion E; subst. by apply Fresh.
    + intros E. inversion E; subst. by apply Fresh.
  - intros Hb. split; [|split].
    + apply Use; [|done]. apply every_irqinthandc; bound_step.
    + apply Use; [|done]. apply every_ttyread; bound_step.
    + apply Use; [|done]. apply every_ttywrite; bound_step.
Qed.

(** X2: the interrupt handler, [ttyread] and [ttywrite] only add to the
    debug log: what was logged before is the beginning of what is logged
    after. *)
Theorem debug_log_is_append_only rd dev fuel buf nchar s :
  (forall a s', irqinthandc rd dev s = Ret a s' ->
     debug_record s `prefix_of` debug_record s') /\
  (forall r s', ttyread env fuel dev buf nchar s = Ret r s' ->
     debug_record s `prefix_of` debug_record s') /\
  (forall r s', ttywrite env fuel dev buf nchar s = Ret r s' ->
     debug_record s `prefix_of` debug_record s').
Proof.
  split; [|split]; intros ? s'.
  - apply (every_irqinthandc log_grows); log_step.
  - apply (every_ttyread log_grows); log_step.
  - apply (every_ttywrite log_grows); log_step.
Qed.

End Invariants.

(** ** The interrupt handler, case by case *)

Ltac split_ifs :=
  repeat (simpl;
          match goal with
          | |- context [if ?b then _ else _] => destruct b eqn:?
          end).

Section HandlerCases.
Context `{platform}.

(** X3: an invocation of the handler leaves EFLAGS and the line structs
    as they were, takes no byte out of the receive queue, puts no byte
    into the transmit queue, and changes each queue by exactly the bytes
    its trace shows going in and coming out. *)
Theorem handler_leaves_foreground_data rd dev s a s' :
  irqinthandc rd dev s = Ret a s' ->
  eflags s' = eflags s /\ ttytab s' = ttytab s /\
  exists tr,
    trace s' = trace s ++ tr /\
    removed InQ tr = [] /\
    accepted OutQ tr = [] /\
    forall q, contents (queue_of q s) ++ accepted q tr
              = removed q tr ++ contents (queue_of q s').
Proof.
  intros E. apply keeps_irqinthandc in E as [T Ef _ _ _ (tr & X & _ & I & O & K)].
  do 2 (split; [done|]). exists tr. auto.
Qed.

(** X4: every invocation of the handler that returns has first read the
    interrupt-identification register, then signalled end-of-interrupt,
    once in all, and has last written the receiver-data bit to the
    interrupt-enable register. *)
Theorem handler_acknowledges_once_and_rearms rd dev s a s' :
  irqinthandc rd dev s = Ret a s' ->
  exists d tr,
    at_index devtab dev = Some d /\
    trace s' = trace s ++ tr /\
    tr !! 0%nat = Some (running s, Inpt (dvbaseport d + UART_IIR)
                                     (rd (dvbaseport d + UART_IIR))) /\
    tr !! 1%nat = Some (running s, PicEndInt) /\
    acknowledgements tr = 1%nat /\
    list.last tr = Some (running s, Outpt (dvbaseport d + UART_IER) UART_IER_RDI).
Proof.
  unfold irqinthandc, devtab_entry.
  destruct (at_index devtab dev) as [d|] eqn:Hd; [|discriminate].
  cbv beta iota delta
    [inpt outpt pic_end_int debug_log enqueue_at dequeue_at queuecount_at
     load_echoflag receive_case transmit_case bind ret modify emit lift].
  intros E. exists d. revert E.
  split_ifs; simpl;
    try (destruct (at_index (ttytab s) (dvdata d)); [|discriminate]);
    split_ifs; simpl; intros E; inversion E; subst; clear E;
    (eexists; split; [reflexivity|]);
    (split; [simpl; rewrite <- !app_assoc; reflexivity|]); done.
Qed.

Lemma irq_transmit_ready rd dev s d :
  at_index devtab dev = Some d ->
  UART_IIR_RDI <> UART_IIR_THRI ->
  Z.land (rd (dvbaseport d + UART_IIR)) UART_IIR_ID = UART_IIR_THRI ->
  exists s',
    irqinthandc rd dev s = Ret tt s' /\
    trace s' = trace s ++ map (pair (running s))
      ([ Inpt (dvbaseport d + UART_IIR) (rd (dvbaseport d + UART_IIR));
         PicEndInt ]
       ++ drain EchoQ (dvbaseport d + UART_TX) (contents (echoQueue s))
       ++ drain OutQ (dvbaseport d + UART_TX) (contents (outQueue s))
       ++ [ Outpt (dvbaseport d + UART_IER) UART_IER_RDI ]) /\
    contents (echoQueue s') = drop 1 (contents (echoQueue s)) /\
    contents (outQueue s') = drop 1 (contents (outQueue s)) /\
    inQueue s' = inQueue s /\ ttytab s' = ttytab s.
Proof.
  intros Hd Hne Hiir.
  unfold irqinthandc, devtab_entry. rewrite Hd.
  cbv beta iota delta
    [inpt outpt pic_end_int debug_log enqueue_at dequeue_at queuecount_at
     transmit_case bind ret modify emit lift].
  simpl. rewrite Hiir.
  destruct (UART_IIR_THRI =? UART_IIR_RDI) eqn:E1;
    [apply Z.eqb_eq in E1; congruence|].
  rewrite Z.eqb_refl. unfold queuecount, dequeue. simpl.
  destruct (contents (echoQueue s)) as [|e es] eqn:He; simpl;
    destruct (contents (outQueue s)) as [|o os] eqn:Ho; simpl;
    (eexists; split; [reflexivity|]); simpl;
    rewrite <- ?app_assoc, ?He, ?Ho; done.
Qed.

(** X5: a transmit-ready interrupt takes at most one byte out of each of
    the echo queue and the transmit queue, the head of each non-empty
    one, and writes what it took to the transmit register, the echo byte
    first; with both queues empty it writes nothing there.  The receive
    queue is not touched. *)
Theorem transmit_ready_moves_one_byte_per_queue rd dev s d :
  at_index devtab dev = Some d ->
  UART_IIR_RDI <> UART_IIR_THRI ->
  Z.land (rd (dvbaseport d + UART_IIR)) UART_IIR_ID = UART_IIR_THRI ->
  exists s',
    irqinthandc rd dev s = Ret tt s' /\
    trace s' = trace s ++ map (pair (running s))
      ([ Inpt (dvbaseport d + UART_IIR) (rd (dvbaseport d + UART_IIR));
         PicEndInt ]
       ++ drain EchoQ (dvbaseport d + UART_TX) (contents (echoQueue s))
       ++ drain OutQ (dvbaseport d + UART_TX) (contents (outQueue s))
       ++ [ Outpt (dvbaseport d + UART_IER) UART_IER_RDI ]) /\
    contents (echoQueue s') = drop 1 (contents (echoQueue s)) /\
    contents (outQueue s') = drop 1 (contents (outQueue s)) /\
    inQueue s' = inQueue s.
Proof.
  intros Hd Hne Hiir.
  destruct (irq_transmit_ready rd dev s d Hd Hne Hiir)
    as (s' & E & X & He & Ho & Hi & _).
  exists s'. auto.
Qed.

(** X6: a receive interrupt puts the byte read from the receive register
    at the end of the receive queue when the queue has room and drops it
    when the queue is full; with the echo flag of the line at 0 nothing
    enters the echo queue, otherwise the byte does when that queue has
    room.  The handler returns in either case. *)
Theorem receive_interrupt_queues_or_drops rd dev s d t :
  at_index devtab dev = Some d ->
  at_index (ttytab s) (dvdata d) = Some t ->
  Z.land (rd (dvbaseport d + UART_IIR)) UART_IIR_ID = UART_IIR_RDI ->
  exists s' tr,
    irqinthandc rd dev s = Ret tt s' /\
    trace s' = trace s ++ tr /\
    accepted InQ tr
    = (if queuecount (inQueue s) <? capacity (inQueue s)
       then [rd (dvbaseport d + UART_RX)] else []) /\
    contents (inQueue s') = contents (inQueue s) ++ accepted InQ tr /\
    accepted EchoQ tr
    = (if echoflag t =? 0 then []
       else if queuecount (echoQueue s) <? capacity (echoQueue s)
            then [rd (dvbaseport d + UART_RX)] else []).
Proof.
  intros Hd Ht Hiir.
  unfold irqinthandc, devtab_entry. rewrite Hd.
  cbv beta iota delta
    [inpt outpt pic_end_int debug_log enqueue_at dequeue_at queuecount_at
     load_echoflag receive_case transmit_case bind ret modify emit lift].
  simpl. rewrite Hiir, Z.eqb_refl. simpl. rewrite Ht. unfold enqueue. simpl.
  destruct (queuecount (inQueue s) <? capacity (inQueue s)) eqn:Ein;
    destruct (echoflag t =? 0) eqn:Ee; simpl;
    [ | destruct (queuecount (echoQueue s) <? capacity (echoQueue s)) eqn:Eec
      | | destruct (queuecount (echoQueue s) <? capacity (echoQueue s)) eqn:Eec ];
    split_ifs; simpl;
    (eexists _, _; split; [reflexivity|]);
    (split; [simpl; rewrite <- !app_assoc; reflexivity|]);
    simpl; rewrite ?app_nil_r; done.
Qed.

(** X7: an interrupt whose identification is neither received-data nor
    transmit-ready moves no byte: the queues and the line structs stay
    as they are, the log gets the two marks of the entry and of the
    default case, and the ports see only the read of the identification
    register and the write that re-arms the receiver. *)
Theorem unknown_interrupt_moves_nothing rd dev s d :
  at_index devtab dev = Some d ->
  Z.land (rd (dvbaseport d + UART_IIR)) UART_IIR_ID <> UART_IIR_RDI ->
  Z.land (rd (dvbaseport d + UART_IIR)) UART_IIR_ID <> UART_IIR_THRI ->
  exists s',
    irqinthandc rd dev s = Ret tt s' /\
    trace s' = trace s ++ map (pair (running s))
      [ Inpt (dvbaseport d + UART_IIR) (rd (dvbaseport d + UART_IIR));
        PicEndInt;
        Outpt (dvbaseport d + UART_IER) UART_IER_RDI ] /\
    line_queues dev s' = line_queues dev s /\
    ttytab s' = ttytab s /\
    debug_record s' = debug_record s ++ [42; 35].
Proof.
  intros Hd N1 N2. apply Z.eqb_neq in N1, N2.
  unfold irqinthandc, devtab_entry. rewrite Hd.
  cbv beta iota delta
    [inpt outpt pic_end_int debug_log bind ret modify emit lift].
  simpl. rewrite N1, N2. simpl.
  eexists. split; [reflexivity|]. simpl.
  rewrite <- !app_assoc. done.
Qed.

Lemma invocations_drain rd dev d l :
  at_index devtab dev = Some d ->
  UART_IIR_RDI <> UART_IIR_THRI ->
  UART_TX <> UART_IER ->
  Z.land (rd (dvbaseport d + UART_IIR)) UART_IIR_ID = UART_IIR_THRI ->
  forall s,
    contents (echoQueue s) = [] ->
    contents (outQueue s) = l ->
    exists s' tr,
      invocations (length l) rd dev s = Ret tt s' /\
      trace s' = trace s ++ tr /\
      written (dvbaseport d + UART_TX) tr = l /\
      removed OutQ tr = l /\
      contents (outQueue s') = [] /\
      contents (echoQueue s') = [].
Proof.
  intros Hd Hne Hports Hiir.
  assert ((dvbaseport d + UART_IER =? dvbaseport d + UART_TX) = false) as Hp
    by (apply Z.eqb_neq; lia).
  induction l as [|c l IH]; intros s He Ho.
  - exists s, []. simpl. rewrite app_nil_r. done.
  - destruct (irq_transmit_ready rd dev s d Hd Hne Hiir)
      as (s1 & E & X & He1 & Ho1 & _ & _).
    rewrite He in He1, X. rewrite Ho in Ho1, X. simpl in He1, Ho1, X.
    destruct (IH s1 He1 Ho1) as (s' & tr & E' & X' & W & Rm & Ho' & He').
    eexists s', _. simpl. rewrite (bind_runs _ _ _ _ _ E).
    split; [exact E'|]. split; [rewrite X', X, <- app_assoc; reflexivity|].
    unfold written, removed in *. rewrite !omap_app. simpl.
    rewrite Z.eqb_refl, Hp. simpl. by rewrite W, Rm.
Qed.

(** X8: with the echo queue empty, as many transmit-ready interrupts as
    the transmit queue holds bytes write these bytes to the transmit
    register in the order they were queued and leave the queue empty. *)
Theorem transmit_interrupts_drain_in_order rd dev d s :
  at_index devtab dev = Some d ->
  UART_IIR_RDI <> UART_IIR_THRI ->
  UART_TX <> UART_IER ->
  Z.land (rd (dvbaseport d + UART_IIR)) UART_IIR_ID = UART_IIR_THRI ->
  contents (echoQueue s) = [] ->
  exists s' tr,
    invocations (length (contents (outQueue s))) rd dev s = Ret tt s' /\
    trace s' = trace s ++ tr /\
    written (dvbaseport d + UART_TX) tr = contents (outQueue s) /\
    contents (outQueue s') = [].
Proof.
  intros Hd Hne Hp Hiir He.
  destruct (invocations_drain rd dev d (contents (outQueue s)) Hd Hne Hp Hiir s He eq_refl)
    as (s' & tr & E & X & W & _ & Ho & _).
  exists s', tr. auto.
Qed.

End HandlerCases.

(** ** ttywrite and ttyread in particular surroundings *)

Section Surroundings.
Context `{platform}.
Variable env : nat -> list interrupt.

Lemma window_silent_state s :
  (forall k, env k = []) ->
  exists s', window env s = Ret tt s' /\ same_but_clock s s'.
Proof.
  intros He. unfold window. destruct (Z.testbit (eflags s) IF_BIT).
  - rewrite He. eexists. split; [reflexivity|]. repeat split.
  - exists s. split; [done|]. repeat split.
Qed.

Ltac pass_silent He :=
  match goal with
  | |- context [window env ?s0] =>
      let s1 := fresh "s" in let W := fresh "W" in
      let QI := fresh "QI" in let QO := fresh "QO" in let QE := fresh "QE" in
      let T := fresh "T" in let D := fresh "D" in let Ef := fresh "Ef" in
      let R := fresh "R" in let X := fresh "X" in
      destruct (window_silent_state s0 He)
        as (s1 & W & QI & QO & QE & T & D & Ef & R & X);
      rewrite W; simpl in QI, QO, QE, T, D, Ef, R, X; simpl
  end.

(** What one accepted byte adds to the trace of [ttywrite]. *)
Lemma ttywrite_loop_quiet baseport buf nchar fuel :
  (forall k, env k = []) ->
  nchar <= Z.of_nat (length buf) ->
  forall i s,
    0 <= i ->
    nchar - i <= capacity (outQueue s) - queuecount (outQueue s) ->
    (Z.to_nat (nchar - i) <= fuel)%nat ->
    exists s',
      ttywrite_loop env fuel baseport buf i nchar s = Ret tt s' /\
      contents (outQueue s')
      = contents (outQueue s) ++ drop (Z.to_nat i) (take (Z.to_nat nchar) buf) /\
      capacity (outQueue s') = capacity (outQueue s) /\
      inQueue s' = inQueue s /\ echoQueue s' = echoQueue s /\
      ttytab s' = ttytab s /\ running s' = running s /\
      trace s' = trace s ++ map (pair (running s))
        (flat_map (fun c => [ Enq OutQ c Enqueued;
                              Outpt (baseport + UART_IER) UART_IER_THRI; Sti ])
           (drop (Z.to_nat i) (take (Z.to_nat nchar) buf))) /\
      debug_record s' = debug_record s
        ++ flat_map (fun c => c_string [60; c; 0])
             (drop (Z.to_nat i) (take (Z.to_nat nchar) buf)) /\
      (i < nchar -> Z.testbit (eflags s') IF_BIT = true) /\
      (nchar <= i -> eflags s' = eflags s).
Proof.
  intros He Hbuf.
  assert (forall i, nchar <= i ->
            drop (Z.to_nat i) (take (Z.to_nat nchar) buf) = []) as Hnil.
  { intros i Hi. apply drop_ge. rewrite length_take. lia. }
  induction fuel as [|fuel IH]; intros i s Hi Hq Hfuel.
  - exists s. rewrite ttywrite_loop_done by lia. rewrite Hnil by lia.
    simpl. rewrite !app_nil_r. repeat split; try done. lia.
  - destruct (Z.lt_ge_cases i nchar) as [Hlt|Hge].
    2:{ exists s. rewrite ttywrite_loop_done by lia. rewrite Hnil by lia.
        simpl. rewrite !app_nil_r. repeat split; try done. lia. }
    rewrite ttywrite_loop_unfold by done.
    destruct (at_index_in_range buf i) as (c & Hc); [lia|].
    rewrite (at_index_drop _ _ nchar _ Hc) by done. rewrite Hc.
    cbv beta iota delta [enqueue_at sti outpt debug_log bind modify emit ret lift].
    unfold enqueue. simpl.
    destruct (queuecount (outQueue s) <? capacity (outQueue s)) eqn:Hfull;
      [|apply Z.ltb_ge in Hfull; lia].
    simpl. pass_silent He. pass_silent He. pass_silent He.
    destruct (IH (i + 1) s2) as (s' & E & C & Cap & QI' & QE' & T' & R' & X' & D' & F1 & F2).
    { lia. }
    { unfold queuecount in *. rewrite QO1, QO0, QO. simpl.
      rewrite length_app. simpl. lia. }
    { lia. }
    exists s'. split; [exact E|].
    rewrite C, Cap, QI', QE', T', R', X', D'.
    rewrite QO1, QO0, QO, QI1, QI0, QI, QE1, QE0, QE, T1, T0, T, R1, R0, R,
      X1, X0, X, D1, D0, D. simpl.
    rewrite <- !app_assoc. simpl. rewrite ?R0, ?R.
    repeat (split; [done|]). split.
    + intros _. destruct (Z.lt_ge_cases (i + 1) nchar) as [Hl|Hg]; [by apply F1|].
      rewrite (F2 Hg), Ef1. simpl. apply Z.setbit_eq. done.
    + lia.
Qed.

End Surroundings.

Section Calls.
Context `{platform}.
Variable env : nat -> list interrupt.

Lemma written_app port tr1 tr2 :
  written port (tr1 ++ tr2) = written port tr1 ++ written port tr2.
Proof. apply omap_app. Qed.

Lemma written_by_ttywrite c port ier thri l :
  (ier =? port) = false ->
  written port
    (map (pair c)
       (Cli :: flat_map (fun b => [Enq OutQ b Enqueued; Outpt ier thri; Sti]) l))
  = [].
Proof.
  intros Hp. change (written port
    (map (pair c)
       (flat_map (fun b => [Enq OutQ b Enqueued; Outpt ier thri; Sti]) l)) = []).
  induction l as [|b l IH]; [done|].
  unfold written in *. simpl. by rewrite Hp.
Qed.

Lemma ttywrite_quiet fuel dev buf nchar s d :
  (forall k, env k = []) ->
  at_index devtab dev = Some d ->
  0 <= nchar <= Z.of_nat (length buf) ->
  nchar <= capacity (outQueue s) - queuecount (outQueue s) ->
  (Z.to_nat nchar <= fuel)%nat ->
  exists s',
    ttywrite env fuel dev buf nchar s = Ret nchar s' /\
    contents (outQueue s') = contents (outQueue s) ++ take (Z.to_nat nchar) buf /\
    inQueue s' = inQueue s /\ echoQueue s' = echoQueue s /\
    ttytab s' = ttytab s /\
    trace s' = trace s ++ map (pair (running s))
      (Cli :: flat_map (fun c => [ Enq OutQ c Enqueued;
                                   Outpt (dvbaseport d + UART_IER) UART_IER_THRI;
                                   Sti ])
                (take (Z.to_nat nchar) buf)) /\
    debug_record s' = debug_record s
      ++ flat_map (fun c => c_string [60; c; 0]) (take (Z.to_nat nchar) buf).
Proof.
  intros He Hd Hn Hq Hfuel. unfold ttywrite, devtab_entry. rewrite Hd.
  cbv beta iota delta [cli bind ret modify emit lift].
  match goal with
  | |- context [ttywrite_loop env fuel ?b buf 0 nchar ?s1] =>
      destruct (ttywrite_loop_quiet env b buf nchar fuel He (proj2 Hn) 0 s1)
        as (s' & E & C & _ & QI & QE & T & R & X & D & _);
        [lia | simpl; lia | lia |]
  end.
  rewrite E. exists s'. split; [done|].
  change (Z.to_nat 0) with 0%nat in *. rewrite drop_0 in *.
  rewrite C, QI, QE, T, X, D. simpl. rewrite <- !app_assoc. done.
Qed.

(** X9: with no interrupt arriving and room in the transmit queue for
    [nchar] bytes, [ttywrite] returns [nchar], has appended the first
    [nchar] bytes of the buffer to the queue, has logged each of them
    after the mark 60, and has done nothing else than [cli] and, for each
    byte, the enqueue, the write of the transmit-interrupt bit and
    [sti]. *)
Theorem ttywrite_appends_when_undisturbed fuel dev buf nchar s d :
  (forall k, env k = []) ->
  at_index devtab dev = Some d ->
  0 <= nchar <= Z.of_nat (length buf) ->
  nchar <= capacity (outQueue s) - queuecount (outQueue s) ->
  (Z.to_nat nchar <= fuel)%nat ->
  exists s',
    ttywrite env fuel dev buf nchar s = Ret nchar s' /\
    contents (outQueue s') = contents (outQueue s) ++ take (Z.to_nat nchar) buf /\
    inQueue s' = inQueue s /\ echoQueue s' = echoQueue s /\
    ttytab s' = ttytab s /\
    trace s' = trace s ++ map (pair (running s))
      (Cli :: flat_map (fun c => [ Enq OutQ c Enqueued;
                                   Outpt (dvbaseport d + UART_IER) UART_IER_THRI;
                                   Sti ])
                (take (Z.to_nat nchar) buf)) /\
    debug_record s' = debug_record s
      ++ flat_map (fun c => c_string [60; c; 0]) (take (Z.to_nat nchar) buf).
Proof. apply ttywrite_quiet. Qed.

(** X10: what [ttywrite] queues reaches the line: after an undisturbed
    [ttywrite] into a driver whose echo queue is empty, as many
    transmit-ready interrupts as the transmit queue holds bytes write
    the bytes that were waiting and then the bytes of the buffer to the
    transmit register, in order, and empty the queue. *)
Theorem written_bytes_reach_the_line rd fuel dev buf nchar s d :
  (forall k, env k = []) ->
  at_index devtab dev = Some d ->
  UART_IIR_RDI <> UART_IIR_THRI ->
  UART_TX <> UART_IER ->
  Z.land (rd (dvbaseport d + UART_IIR)) UART_IIR_ID = UART_IIR_THRI ->
  0 <= nchar <= Z.of_nat (length buf) ->
  nchar <= capacity (outQueue s) - queuecount (outQueue s) ->
  (Z.to_nat nchar <= fuel)%nat ->
  contents (echoQueue s) = [] ->
  exists s1 s2 tr,
    ttywrite env fuel dev buf nchar s = Ret nchar s1 /\
    invocations (length (contents (outQueue s1))) rd dev s1 = Ret tt s2 /\
    trace s2 = trace s ++ tr /\
    written (dvbaseport d + UART_TX) tr
    = contents (outQueue s) ++ take (Z.to_nat nchar) buf /\
    contents (outQueue s2) = [].
Proof.
  intros He Hd Hne Hp Hiir Hn Hq Hfuel Hecho.
  destruct (ttywrite_quiet fuel dev buf nchar s d He Hd Hn Hq Hfuel)
    as (s1 & E1 & C & _ & QE & _ & X & _).
  destruct (invocations_drain rd dev d (contents (outQueue s1)) Hd Hne Hp Hiir s1)
    as (s2 & tr & E2 & X2 & W & _ & Ho & _); [by rewrite QE | done |].
  exists s1, s2. eexists. split; [exact E1|]. split; [exact E2|].
  split; [rewrite X2, X, <- app_assoc; reflexivity|]. split; [|done].
  rewrite written_app, W, C, written_by_ttywrite; [done|].
  apply Z.eqb_neq. lia.
Qed.

End Calls.

Section Flags.
Context `{platform}.
Variable env : nat -> list interrupt.

Lemma window_keeps_eflags s a s' :
  window env s = Ret a s' -> eflags s' = eflags s.
Proof. intros E. by apply window_facts in E as (_ & Ef & _). Qed.

Lemma window_closed s :
  Z.testbit (eflags s) IF_BIT = false -> window env s = Ret tt s.
Proof. intros Hm. unfold window. by rewrite Hm. Qed.

Ltac through_window E :=
  match type of E with
  | context [window env ?s0] =>
      let W := fresh "W" in let Ef := fresh "Ef" in
      destruct (window env s0) as [[] ?s| |] eqn:W; try discriminate;
      apply window_keeps_eflags in W as Ef; simpl in Ef; simpl in E
  end.

Lemma ttywrite_loop_flag baseport buf nchar fuel :
  forall i s a s',
    ttywrite_loop env fuel baseport buf i nchar s = Ret a s' ->
    (i < nchar -> Z.testbit (eflags s') IF_BIT = true) /\
    (nchar <= i -> eflags s' = eflags s).
Proof.
  induction fuel as [|fuel IH]; intros i s a s' E.
  - simpl in E. destruct (i <? nchar) eqn:Hlt; [discriminate|].
    apply Z.ltb_ge in Hlt. inversion E; subst. split; [lia|done].
  - destruct (Z.lt_ge_cases i nchar) as [Hlt|Hge].
    2:{ rewrite ttywrite_loop_done in E by done. inversion E; subst.
        split; [lia|done]. }
    split; [intros _|lia].
    rewrite ttywrite_loop_unfold in E by done.
    apply bind_Ret in E as (c & s0 & Ec & E).
    destruct (at_index buf i) as [c'|]; inversion Ec; subst; clear Ec.
    cbv beta iota delta [enqueue_at sti outpt debug_log bind modify emit ret] in E.
    unfold enqueue in E. simpl in E.
    destruct (queuecount (outQueue s0) <? capacity (outQueue s0)); simpl in E.
    + through_window E. through_window E. through_window E.
      apply IH in E as [F1 F2].
      destruct (Z.lt_ge_cases (i + 1) nchar) as [Hl|Hg]; [by apply F1|].
      rewrite (F2 Hg), Ef1. by apply Z.setbit_eq.
    + through_window E. through_window E.
      apply IH in E as [F1 _]. by apply F1.
Qed.

(** X11: whatever interrupts arrive and whatever the interrupt flag was
    at the call, [ttywrite] of at least one byte returns with the
    interrupt flag set: it ends each pass with [sti] and does not put
    the caller's EFLAGS back. *)
Theorem ttywrite_returns_with_interrupts_on fuel dev buf nchar s r s' :
  1 <= nchar ->
  ttywrite env fuel dev buf nchar s = Ret r s' ->
  Z.testbit (eflags s') IF_BIT = true.
Proof.
  intros Hn E. unfold ttywrite in E.
  apply bind_Ret in E as (d & s0 & _ & E).
  apply bind_Ret in E as (? & s1 & _ & E).
  apply bind_Ret in E as ([] & s2 & E & E2).
  inversion E2; subst. apply ttywrite_loop_flag in E as [F _]. apply F. lia.
Qed.

Lemma ttyread_loop_starves nchar fuel :
  forall buf i s,
    Z.testbit (eflags s) IF_BIT = false ->
    0 <= i ->
    nchar <= Z.of_nat (length buf) ->
    queuecount (inQueue s) < nchar - i ->
    ttyread_loop env fuel buf i nchar s = Spinning.
Proof.
  induction fuel as [|fuel IH]; intros buf i s Hm Hi Hbuf Hq.
  - simpl. assert (i < nchar) as Hlt by (unfold queuecount in Hq; lia).
    apply Z.ltb_lt in Hlt. by rewrite Hlt.
  - assert (i < nchar) as Hlt by (unfold queuecount in Hq; lia).
    rewrite ttyread_loop_unfold by done.
    cbv beta iota delta [get_eflags cli dequeue_at set_eflags bind modify emit].
    unfold dequeue. simpl. unfold queuecount in Hq.
    destruct (contents (inQueue s)) as [|c rest] eqn:Hc; simpl in *.
    + rewrite window_closed by done. simpl. apply IH; simpl; try done.
      unfold queuecount. rewrite Hc. simpl. lia.
    + destruct (store_index_in_range buf i c) as (buf1 & St); [lia|].
      rewrite St. simpl. rewrite window_closed by done. simpl.
      apply IH; simpl; try done; try lia.
      * rewrite (store_index_length _ _ _ _ St). lia.
      * unfold queuecount. simpl. lia.
Qed.

(** X13: called with the interrupt flag clear and fewer than [nchar]
    bytes in the receive queue, [ttyread] never returns, whatever
    interrupts are pending: each pass restores the caller's EFLAGS, so
    no handler ever runs to bring the missing bytes. *)
Theorem ttyread_starves_with_interrupts_masked fuel dev buf nchar s :
  Z.testbit (eflags s) IF_BIT = false ->
  nchar <= Z.of_nat (length buf) ->
  queuecount (inQueue s) < nchar ->
  ttyread env fuel dev buf nchar s = Spinning.
Proof.
  intros Hm Hbuf Hq. unfold ttyread, bind.
  rewrite ttyread_loop_starves; try done. lia.
Qed.

(** X15: when the receive queue already holds [nchar] bytes, [ttyread]
    returns within [nchar] passes, whatever arrives meanwhile, with the
    first [nchar] bytes of the queue in the first [nchar] places of the
    buffer and the rest of the buffer untouched; the queue keeps its
    other bytes, followed by those that arrived. *)
Theorem ttyread_takes_what_is_queued fuel dev buf nchar s :
  0 <= nchar <= Z.of_nat (length buf) ->
  lines_ok s ->
  nchar <= queuecount (inQueue s) ->
  (Z.to_nat nchar <= fuel)%nat ->
  exists buf' s' tr,
    ttyread env fuel dev buf nchar s = Ret (nchar, buf') s' /\
    buf' = take (Z.to_nat nchar) (contents (inQueue s))
           ++ drop (Z.to_nat nchar) buf /\
    trace s' = trace s ++ tr /\
    contents (inQueue s')
    = drop (Z.to_nat nchar) (contents (inQueue s)) ++ accepted InQ tr.
Proof.
  intros Hn Hok Hq Hfuel.
  destruct (ttyread_loop_runs env nchar fuel buf 0 s) as (buf' & s' & E);
    [lia | done | lia | lia | lia |].
  pose proof E as E'.
  apply ttyread_loop_returns in E' as (_ & _ & tr & X & L & B & K & _); [|lia].
  simpl in B. rewrite Z.sub_0_r in L.
  assert (removed InQ tr = take (Z.to_nat nchar) (contents (inQueue s))) as Hr.
  { apply (f_equal (take (Z.to_nat nchar))) in K.
    rewrite (take_app_length' (removed InQ tr)) in K by lia.
    rewrite <- K. unfold queuecount in Hq. rewrite take_app_le by lia. done. }
  exists buf', s', tr. unfold ttyread. rewrite (bind_runs _ _ _ _ _ E).
  split; [done|]. split; [by rewrite B, Hr|]. split; [done|].
  apply (f_equal (drop (Z.to_nat nchar))) in K.
  rewrite (drop_app_length' (removed InQ tr)) in K by lia. rewrite <- K.
  unfold queuecount in Hq. rewrite drop_app_le by lia. done.
Qed.

End Flags.

Section InitUnknown.
Context `{platform}.

(** X14: [ttyinit] gives up on a base port that is neither COM1 nor COM2
    only after it has emptied the three queues, which every line uses,
    and cleared the debug log; EFLAGS and the line structs are as
    before. *)
Theorem ttyinit_unknown_port_still_resets dev s d :
  at_index devtab dev = Some d ->
  dvbaseport d <> COM1_BASE ->
  dvbaseport d <> COM2_BASE ->
  exists s',
    ttyinit dev s = Ret tt s' /\
    line_queues dev s' = (init_queue MAXBUF, init_queue MAXBUF, init_queue MAXBUF) /\
    debug_record s' = [] /\
    ttytab s' = ttytab s /\ eflags s' = eflags s.
Proof.
  intros Hd N1 N2. apply Z.eqb_neq in N1, N2.
  unfold ttyinit, devtab_entry.
  cbv beta iota delta
    [init_queue_at kprintf_bad_entry bind modify emit ret lift].
  simpl. rewrite Hd, N1, N2. eexists. split; [reflexivity|]. done.
Qed.

End InitUnknown.

(** ** The earlier states of the driver *)

Section EarlierHandlers.
Context `{platform}.

(** X16: the handler that tests the two conditions one after the other
    does, for an identification with the received-data bit and without
    the transmit bit, the receive part only: it reads the byte, offers
    it to the receive queue and, with echo on, to the echo queue, and
    re-arms the receiver; it takes nothing out of a queue and writes
    nothing to the transmit register. *)
Theorem interim_receive_does_not_transmit rd dev s d t :
  at_index devtab dev = Some d ->
  at_index (ttytab s) (dvdata d) = Some t ->
  Z.land (rd (dvbaseport d + UART_IIR)) UART_IIR_RDI <> 0 ->
  Z.land (rd (dvbaseport d + UART_IIR)) UART_IIR_THRI = 0 ->
  exists s',
    Interim.irqinthandc rd dev s = Ret tt s' /\
    trace s' = trace s ++ map (pair (running s))
      ([ Inpt (dvbaseport d + UART_IIR) (rd (dvbaseport d + UART_IIR));
         PicEndInt;
         Inpt (dvbaseport d + UART_RX) (rd (dvbaseport d + UART_RX));
         Enq InQ (rd (dvbaseport d + UART_RX))
           (fst (enqueue (inQueue s) (rd (dvbaseport d + UART_RX)))) ]
       ++ (if echoflag t =? 0 then []
           else [ Enq EchoQ (rd (dvbaseport d + UART_RX))
                    (fst (enqueue (echoQueue s) (rd (dvbaseport d + UART_RX)))) ])
       ++ [ Outpt (dvbaseport d + UART_IER) UART_IER_RDI ]) /\
    outQueue s' = outQueue s.
Proof.
  intros Hd Ht N1 E2. apply Z.eqb_neq in N1.
  unfold Interim.irqinthandc, devtab_entry. rewrite Hd.
  cbv beta iota delta
    [inpt outpt pic_end_int debug_log enqueue_at dequeue_at queuecount_at
     load_echoflag bind ret modify emit lift].
  simpl. rewrite N1, E2. simpl. rewrite Ht. simpl.
  destruct (echoflag t =? 0); simpl;
    (eexists; split; [reflexivity|]); simpl; rewrite <- !app_assoc; done.
Qed.

(** X17: with the echo flag of the line set, the first handler writes
    what the receive register holds to the transmit register on every
    interrupt, whatever its cause, right after the end-of-interrupt; and
    an interrupt without the received-data bit leaves the receive queue
    as it is. *)
Theorem earlier_handler_echoes_on_every_interrupt rd dev s d t :
  at_index devtab dev = Some d ->
  at_index (ttytab s) (dvdata d) = Some t ->
  echoflag t <> 0 ->
  exists s' tr,
    Earlier.irqinthandc rd dev s = Ret tt s' /\
    trace s' = trace s ++ tr /\
    take 4 tr = map (pair (running s))
      [ Inpt (dvbaseport d + UART_IIR) (rd (dvbaseport d + UART_IIR));
        PicEndInt;
        Inpt (dvbaseport d + UART_RX) (rd (dvbaseport d + UART_RX));
        Outpt (dvbaseport d + UART_TX) (rd (dvbaseport d + UART_RX)) ] /\
    (Z.land (rd (dvbaseport d + UART_IIR)) UART_IIR_RDI = 0 ->
     inQueue s' = inQueue s).
Proof.
  intros Hd Ht Ne. apply Z.eqb_neq in Ne.
  unfold Earlier.irqinthandc, devtab_entry. rewrite Hd.
  cbv beta iota delta
    [inpt outpt pic_end_int debug_log enqueue_at dequeue_at queuecount_at
     load_echoflag bind ret modify emit lift].
  simpl. rewrite Ht. simpl. rewrite Ne. simpl.
  destruct (Z.land (rd (dvbaseport d + UART_IIR)) UART_IIR_RDI =? 0) eqn:E1;
    destruct (Z.land (rd (dvbaseport d + UART_IIR)) UART_IIR_THRI =? 0) eqn:E2;
    simpl; try (destruct (fst (dequeue (outQueue s))) eqn:Eq; simpl);
    (eexists _, _; split; [reflexivity|]);
    (split; [simpl; rewrite <- !app_assoc; reflexivity|]);
    (split; [done|]); intros E0; simpl; try done;
    apply Z.eqb_neq in E1; done.
Qed.

Lemma keeps_earlier_irqinthandc rd dev :
  keeps handler_step (Earlier.irqinthandc rd dev).
Proof.
  unfold Earlier.irqinthandc, devtab_entry.
  repeat first
    [ apply keeps_inpt | apply keeps_outpt | apply keeps_pic_end_int
    | apply keeps_debug_log | apply keeps_load_echoflag
    | apply keeps_enqueue_at; discriminate
    | apply keeps_dequeue_at; discriminate
    | apply keeps_ret; typeclasses eauto
    | apply keeps_lift; typeclasses eauto
    | apply keeps_bind; [typeclasses eauto | | intros ?]
    | lazymatch goal with
      | |- keeps _ (if ?b then _ else _) => destruct b
      | |- keeps _ (match ?x with _ => _ end) => destruct x
      end ].
Qed.

Lemma keeps_earlier_dispatch i : keeps handler_step (Earlier.dispatch i).
Proof.
  unfold Earlier.dispatch, Earlier.irq4inthandc, Earlier.irq3inthandc.
  destruct (irq i); apply keeps_earlier_irqinthandc.
Qed.

Lemma keeps_service_with h l :
  (forall i, keeps handler_step (h i)) -> keeps handler_step (service_with h l).
Proof.
  intros Hh. induction l as [|i l IH]; simpl.
  - apply keeps_ret; typeclasses eauto.
  - apply keeps_bind; [typeclasses eauto | apply Hh | done].
Qed.

(** What the foreground sees of a window of the first driver. *)
Lemma earlier_window_facts env s a s' :
  window_with Earlier.dispatch env s = Ret a s' ->
  eflags s' = eflags s /\ running s' = running s /\
  exists tr, trace s' = trace s ++ tr /\ foreground tr = [].
Proof.
  unfold window_with. destruct (Z.testbit (eflags s) IF_BIT).
  - intros E. apply bind_Ret in E as (? & s1 & E1 & E).
    apply bind_Ret in E as (? & s2 & E2 & E).
    inversion E1; subst; clear E1. inversion E; subst; clear E.
    apply (keeps_service_with _ _ keeps_earlier_dispatch) in E2
      as [_ Ef _ R _ (tr & X & F & _)].
    simpl in *. do 2 (split; [done|]). exists tr. split; [done|].
    by apply foreground_handler.
  - intros E. inversion E; subst. do 2 (split; [done|]).
    exists []. by rewrite app_nil_r.
Qed.

Lemma window_with_silent h env s :
  (forall k, env k = []) ->
  exists s', window_with h env s = Ret tt s' /\ same_but_clock s s'.
Proof.
  intros He. unfold window_with. destruct (Z.testbit (eflags s) IF_BIT).
  - rewrite He. eexists. split; [reflexivity|]. repeat split.
  - exists s. split; [done|]. repeat split.
Qed.

End EarlierHandlers.

Section EarlierCalls.
Context `{platform}.
Variable env : nat -> list interrupt.

Lemma at_index_drop_all {A} (l : list A) i x :
  at_index l i = Some x ->
  drop (Z.to_nat i) l = x :: drop (Z.to_nat (i + 1)) l.
Proof.
  unfold at_index. intros E. destruct (i <? 0) eqn:E0; [done|].
  apply Z.ltb_ge in E0.
  replace (Z.to_nat (i + 1)) with (S (Z.to_nat i)) by lia.
  by apply drop_S.
Qed.

Ltac earlier_window E :=
  match type of E with
  | context [window_with Earlier.dispatch env ?s0] =>
      let W := fresh "W" in let Ef := fresh "Ef" in let R := fresh "R" in
      let tr := fresh "trw" in let X := fresh "X" in let F := fresh "F" in
      destruct (window_with Earlier.dispatch env s0) as [[] ?s| |] eqn:W;
        try discriminate;
      apply earlier_window_facts in W as (Ef & R & tr & X & F);
      simpl in Ef, R, X; simpl in E
  end.

Lemma earlier_ttywrite_loop_once baseport n :
  forall buf i s a s',
    running s = Foreground ->
    Earlier.ttywrite_loop env n baseport buf i s = Ret a s' ->
    exists tr,
      trace s' = trace s ++ tr /\
      offered OutQ (foreground tr) = take n (drop (Z.to_nat i) buf) /\
      length (offered OutQ (foreground tr)) = n /\
      masked_queue_ops (eflags s) (foreground tr) = true.
Proof.
  induction n as [|n IH]; intros buf i s a s' Rs E.
  - inversion E; subst. exists []. by rewrite app_nil_r.
  - simpl in E.
    cbv beta iota delta [cli enqueue_at sti outpt debug_log bind modify emit ret lift] in E.
    simpl in E. destruct (at_index buf i) as [c|] eqn:Hc; [|discriminate].
    simpl in E. unfold enqueue in E.
    destruct (queuecount (outQueue s) <? capacity (outQueue s)); simpl in E.
    + earlier_window E.
      apply IH in E as (tr & X' & O & L & Mk); [|congruence].
      eexists. split; [rewrite X', X, <- !app_assoc; reflexivity|].
      rewrite !foreground_app, F, Rs. simpl.
      rewrite (at_index_drop_all _ _ _ Hc). simpl.
      split; [by rewrite O|]. split; [by rewrite L|].
      rewrite Z.clearbit_eq. simpl. by rewrite <- Ef.
    + earlier_window E.
      apply IH in E as (tr & X' & O & L & Mk); [|congruence].
      eexists. split; [rewrite X', X, <- !app_assoc; reflexivity|].
      rewrite !foreground_app, F, Rs. simpl.
      rewrite (at_index_drop_all _ _ _ Hc). simpl.
      split; [by rewrite O|]. split; [by rewrite L|].
      rewrite Z.clearbit_eq. simpl. by rewrite <- Ef.
Qed.

(** X18: the first [ttywrite] offers every byte of the buffer to the
    transmit queue exactly once, in order, whatever the queue answers,
    so that a byte a full queue refuses is not offered again; and it
    makes every offer between a [cli] and a [sti] of its own, with the
    interrupt flag clear. *)
Theorem earlier_ttywrite_offers_each_byte_once dev buf nchar s r s' :
  running s = Foreground ->
  0 <= nchar ->
  Earlier.ttywrite env dev buf nchar s = Ret r s' ->
  r = nchar /\
  exists tr,
    trace s' = trace s ++ tr /\
    offered OutQ (foreground tr) = take (Z.to_nat nchar) buf /\
    Z.of_nat (length (offered OutQ (foreground tr))) = nchar /\
    masked_queue_ops (eflags s) (foreground tr) = true.
Proof.
  intros Rs Hn E. unfold Earlier.ttywrite in E.
  apply bind_Ret in E as (d & s0 & E0 & E).
  unfold devtab_entry in E0.
  destruct (at_index devtab dev); inversion E0; subst; clear E0.
  apply bind_Ret in E as ([] & s1 & E & E1). inversion E1; subst; clear E1.
  split; [done|].
  apply earlier_ttywrite_loop_once in E as (tr & X & O & L & Mk); [|done].
  exists tr. rewrite L. change (Z.to_nat 0) with 0%nat in O.
  rewrite drop_0 in O. repeat (split; [done|]). split; [lia|done].
Qed.

Ltac earlier_silent He :=
  match goal with
  | |- context [window_with Earlier.dispatch env ?s0] =>
      let s1 := fresh "s" in let W := fresh "W" in
      let QI := fresh "QI" in let QO := fresh "QO" in let QE := fresh "QE" in
      let T := fresh "T" in let D := fresh "D" in let Ef := fresh "Ef" in
      let R := fresh "R" in let X := fresh "X" in
      destruct (window_with_silent Earlier.dispatch env s0 He)
        as (s1 & W & QI & QO & QE & T & D & Ef & R & X);
      rewrite W; simpl in QI, QO, QE, T, D, Ef, R, X; simpl
  end.

Lemma earlier_ttywrite_loop_full baseport n :
  (forall k, env k = []) ->
  forall buf i s,
    0 <= i ->
    i + Z.of_nat n <= Z.of_nat (length buf) ->
    capacity (outQueue s) <= queuecount (outQueue s) ->
    exists s',
      Earlier.ttywrite_loop env n baseport buf i s = Ret tt s' /\
      outQueue s' = outQueue s /\
      trace s' = trace s ++ map (pair (running s))
        (flat_map (fun c => [Cli; Enq OutQ c FULLQUE; Sti])
           (take n (drop (Z.to_nat i) buf))).
Proof.
  intros He. induction n as [|n IH]; intros buf i s Hi Hbuf Hq.
  - exists s. simpl. rewrite app_nil_r. done.
  - simpl.
    cbv beta iota delta [cli enqueue_at sti outpt debug_log bind modify emit ret lift].
    simpl. destruct (at_index_in_range buf i) as (c & Hc); [lia|].
    rewrite Hc. simpl. unfold enqueue.
    destruct (queuecount (outQueue s) <? capacity (outQueue s)) eqn:Hfull;
      [apply Z.ltb_lt in Hfull; lia|].
    simpl. earlier_silent He.
    destruct (IH buf (i + 1) s0) as (s' & E & Q & X'); [lia | lia | by rewrite QO |].
    exists s'. split; [exact E|]. rewrite Q, X', QO, X, R. simpl.
    split; [done|]. rewrite (at_index_drop_all _ _ _ Hc). simpl.
    by rewrite <- !app_assoc.
Qed.

(** X19: with the transmit queue full and no interrupt arriving, the
    first [ttywrite] does not wait: it returns [nchar] after one refused
    offer per byte, the queue is as it was, and nothing is written to
    the interrupt-enable register. *)
Theorem earlier_ttywrite_drops_on_full_queue dev buf nchar s d :
  (forall k, env k = []) ->
  at_index devtab dev = Some d ->
  0 <= nchar <= Z.of_nat (length buf) ->
  capacity (outQueue s) <= queuecount (outQueue s) ->
  exists s',
    Earlier.ttywrite env dev buf nchar s = Ret nchar s' /\
    outQueue s' = outQueue s /\
    trace s' = trace s ++ map (pair (running s))
      (flat_map (fun c => [Cli; Enq OutQ c FULLQUE; Sti])
         (take (Z.to_nat nchar) buf)).
Proof.
  intros He Hd Hn Hq. unfold Earlier.ttywrite, devtab_entry. rewrite Hd.
  destruct (earlier_ttywrite_loop_full (dvbaseport d) (Z.to_nat nchar) He buf 0 s)
    as (s' & E & Q & X); [lia | lia | done |].
  unfold bind, lift, ret. rewrite E. exists s'. done.
Qed.

Lemma earlier_ttyread_loop_best_effort n :
  (forall k, env k = []) ->
  forall buf (k : nat) s,
    (k + n <= length buf)%nat ->
    exists s',
      Earlier.ttyread_loop env n buf (Z.of_nat k) s
      = Ret (take k buf ++ take n (contents (inQueue s))
             ++ drop (k + min n (length (contents (inQueue s)))) buf) s' /\
      contents (inQueue s') = drop n (contents (inQueue s)).
Proof.
  intros He. induction n as [|n IH]; intros buf k s Hk.
  - exists s. simpl. rewrite Nat.add_0_r, take_drop. done.
  - simpl.
    cbv beta iota delta
      [get_eflags cli dequeue_at set_eflags debug_log bind modify emit ret lift].
    unfold dequeue. simpl.
    destruct (contents (inQueue s)) as [|c rest] eqn:Hq; simpl.
    + destruct (at_index_in_range buf (Z.of_nat k)) as (b & Hb); [lia|].
      rewrite Hb. simpl. earlier_silent He.
      replace (Z.of_nat k + 1) with (Z.of_nat (S k)) by lia.
      destruct (IH buf (S k) s0) as (s' & E & Q); [lia|].
      rewrite QI in E, Q. simpl in E, Q. rewrite Hq in E, Q.
      rewrite take_nil, drop_nil in *. simpl in E.
      rewrite Nat.min_0_r, Nat.add_0_r, take_drop in E.
      exists s'. rewrite Nat.add_0_r, take_drop. done.
    + destruct (store_index_in_range buf (Z.of_nat k) c) as (buf1 & St); [lia|].
      rewrite St. simpl.
      assert (at_index buf1 (Z.of_nat k) = Some c) as Hb.
      { unfold store_index in St.
        destruct ((0 <=? Z.of_nat k) && (Z.of_nat k <? Z.of_nat (length buf)));
          [|done]. inversion St. unfold at_index.
        destruct (Z.of_nat k <? 0) eqn:E0; [lia|].
        apply list_lookup_insert_eq. lia. }
      rewrite Hb. simpl. earlier_silent He.
      replace (Z.of_nat k + 1) with (Z.of_nat (S k)) by lia.
      destruct (IH buf1 (S k) s0) as (s' & E & Q).
      { rewrite (store_index_length _ _ _ _ St). lia. }
      rewrite QI in E, Q. simpl in E, Q.
      exists s'. split; [|done]. rewrite E. f_equal.
      pose proof (store_index_take _ _ _ _ St) as Tk.
      replace (Z.to_nat (Z.of_nat k + 1)) with (S k) in Tk by lia.
      rewrite Nat2Z.id in Tk. rewrite Tk.
      assert (drop (S (k + min n (length rest))) buf1
              = drop (S (k + min n (length rest))) buf) as ->.
      { replace (S (k + min n (length rest)))
          with (Z.to_nat (Z.of_nat (S (k + min n (length rest))))) by lia.
        apply (store_index_drop _ _ _ _ _ St). lia. }
      rewrite <- app_assoc. simpl.
      by replace (k + S (min n (length rest)))%nat
        with (S (k + min n (length rest))) by lia.
Qed.

(** X20: with no interrupt arriving, the first [ttyread] makes one
    attempt per requested character and returns [nchar] whether or not
    it got them: the buffer receives the bytes the receive queue held,
    as many as were asked for at most, and keeps its old content in the
    places for which the queue had nothing. *)
Theorem earlier_ttyread_returns_without_waiting dev buf nchar s d :
  (forall k, env k = []) ->
  at_index devtab dev = Some d ->
  0 <= nchar <= Z.of_nat (length buf) ->
  exists s',
    Earlier.ttyread env dev buf nchar s
    = Ret (nchar,
           take (Z.to_nat nchar) (contents (inQueue s))
           ++ drop (min (Z.to_nat nchar) (length (contents (inQueue s)))) buf) s' /\
    contents (inQueue s') = drop (Z.to_nat nchar) (contents (inQueue s)).
Proof.
  intros He Hd Hn. unfold Earlier.ttyread, devtab_entry. rewrite Hd.
  destruct (earlier_ttyread_loop_best_effort (Z.to_nat nchar) He buf 0 s)
    as (s' & E & Q); [lia|].
  change (Z.of_nat 0) with 0 in E. simpl in E.
  unfold bind, lift, ret. rewrite E. exists s'. done.
Qed.

End EarlierCalls.

(** ** The properties above on the PC *)

Lemma sapc_lines_ok rx tx echo : @lines_ok sapc (with_queues rx tx echo).
Proof. intros dev [->| ->]; eexists _, _; split; reflexivity. Qed.

Lemma queues_never_exceed_capacity_witness :
  exists s',
    @irqinthandc sapc (uart 1016 4 7) 0 (in_handler [1; 2; 3; 4; 5; 6] [] [])
    = Ret tt s' /\
    bounded s' /\
    contents (inQueue s') = [1; 2; 3; 4; 5; 6].
Proof.
  eassert (@irqinthandc sapc (uart 1016 4 7) 0
             (in_handler [1; 2; 3; 4; 5; 6] [] []) = Ret tt _) as E
    by (vm_compute; reflexivity).
  destruct (@queues_never_exceed_capacity sapc silence (uart 1016 4 7) 0 0%nat
              [] 0 (in_handler [1; 2; 3; 4; 5; 6] [] [])) as [_ Hk].
  destruct Hk as (Hi & _).
  { intros []; vm_compute; discriminate. }
  eexists. split; [exact E|]. split; [exact (proj1 (Hi _ _ E))|reflexivity].
Defined.

Lemma debug_log_is_append_only_witness :
  exists r s',
    @ttyread sapc (typing [120]) 3 0 [0] 1 (with_queues [] [] []) = Ret r s' /\
    debug_record (with_queues [] [] []) `prefix_of` debug_record s' /\
    debug_record s' = [42; 62; 120].
Proof.
  eassert (@ttyread sapc (typing [120]) 3 0 [0] 1 (with_queues [] [] [])
           = Ret _ _) as E by (vm_compute; reflexivity).
  destruct (@debug_log_is_append_only sapc (typing [120]) (uart 0 0 0) 0 3%nat
              [0] 1 (with_queues [] [] [])) as (_ & Hr & _).
  eexists _, _. split; [exact E|]. split; [exact (Hr _ _ E)|reflexivity].
Defined.

Lemma handler_leaves_foreground_data_witness :
  exists s',
    @irqinthandc sapc (uart 1016 4 113) 0 (in_handler [] [111] []) = Ret tt s' /\
    eflags s' = 512 /\
    exists tr, trace s' = tr /\ removed InQ tr = [] /\ accepted OutQ tr = [].
Proof.
  eassert (@irqinthandc sapc (uart 1016 4 113) 0 (in_handler [] [111] [])
           = Ret tt _) as E by (vm_compute; reflexivity).
  destruct (@handler_leaves_foreground_data sapc _ _ _ _ _ E)
    as (Ef & _ & tr & X & I & O & _).
  eexists. split; [exact E|]. split; [exact Ef|]. exists tr. auto.
Defined.

Lemma handler_acknowledges_once_witness :
  exists s' tr,
    @irqinthandc sapc (uart 760 2 0) 1 (in_handler [] [111] []) = Ret tt s' /\
    trace s' = tr /\
    tr !! 1%nat = Some (Handler, PicEndInt) /\
    acknowledgements tr = 1%nat /\
    list.last tr = Some (Handler, Outpt 761 1).
Proof.
  eassert (@irqinthandc sapc (uart 760 2 0) 1 (in_handler [] [111] [])
           = Ret tt _) as E by (vm_compute; reflexivity).
  destruct (@handler_acknowledges_once_and_rearms sapc _ _ _ _ _ E)
    as (d & tr & Hd & X & _ & H1 & Hk & Hl).
  inversion Hd; subst d.
  eexists _, tr. split; [exact E|]. auto.
Defined.

Lemma transmit_ready_moves_one_byte_witness :
  exists s',
    @irqinthandc sapc (uart 1016 2 0) 0 (in_handler [] [111; 112] []) = Ret tt s' /\
    trace s' = map (pair Handler)
      [ Inpt 1018 2; PicEndInt; Deq OutQ (Byte 111); Outpt 1016 111;
        Outpt 1017 1 ] /\
    contents (echoQueue s') = [] /\
    contents (outQueue s') = [112] /\
    inQueue s' = inQueue (in_handler [] [111; 112] []).
Proof.
  apply (@transmit_ready_moves_one_byte_per_queue sapc (uart 1016 2 0) 0
           (in_handler [] [111; 112] []) {| dvbaseport := 1016; dvdata := 0 |}).
  - reflexivity.
  - discriminate.
  - reflexivity.
Defined.

Lemma receive_interrupt_drops_witness :
  exists s' tr,
    @irqinthandc sapc (uart 1016 4 7) 0 (in_handler [1; 2; 3; 4; 5; 6] [] [])
    = Ret tt s' /\
    trace s' = tr /\
    accepted InQ tr = [] /\
    contents (inQueue s') = [1; 2; 3; 4; 5; 6] ++ accepted InQ tr /\
    accepted EchoQ tr = [7].
Proof.
  apply (@receive_interrupt_queues_or_drops sapc (uart 1016 4 7) 0
           (in_handler [1; 2; 3; 4; 5; 6] [] [])
           {| dvbaseport := 1016; dvdata := 0 |} {| echoflag := 1 |});
    reflexivity.
Defined.

Lemma unknown_interrupt_witness :
  exists s',
    @irqinthandc sapc (uart 1016 6 0) 0 (in_handler [1] [2] [3]) = Ret tt s' /\
    trace s' = map (pair Handler) [Inpt 1018 6; PicEndInt; Outpt 1017 1] /\
    line_queues 0 s' = line_queues 0 (in_handler [1] [2] [3]) /\
    ttytab s' = ttytab (in_handler [1] [2] [3]) /\
    debug_record s' = [42; 35].
Proof.
  apply (@unknown_interrupt_moves_nothing sapc (uart 1016 6 0) 0
           (in_handler [1] [2] [3]) {| dvbaseport := 1016; dvdata := 0 |}).
  - reflexivity.
  - discriminate.
  - discriminate.
Defined.

Lemma transmit_interrupts_drain_witness :
  exists s' tr,
    @invocations sapc 3 (uart 1016 2 0) 0 (in_handler [] [104; 105; 33] [])
    = Ret tt s' /\
    trace s' = tr /\
    written 1016 tr = [104; 105; 33] /\
    contents (outQueue s') = [].
Proof.
  apply (@transmit_interrupts_drain_in_order sapc (uart 1016 2 0) 0
           {| dvbaseport := 1016; dvdata := 0 |}
           (in_handler [] [104; 105; 33] [])).
  - reflexivity.
  - discriminate.
  - discriminate.
  - reflexivity.
  - reflexivity.
Defined.

Lemma ttywrite_appends_witness :
  exists s',
    @ttywrite sapc silence 3 0 [104; 105; 33] 2 (with_queues [] [97] []) = Ret 2 s' /\
    contents (outQueue s') = [97; 104; 105] /\
    inQueue s' = inQueue (with_queues [] [97] []) /\
    echoQueue s' = echoQueue (with_queues [] [97] []) /\
    ttytab s' = ttytab (with_queues [] [97] []) /\
    trace s' = map (pair Foreground)
      [ Cli; Enq OutQ 104 Enqueued; Outpt 1017 2; Sti;
        Enq OutQ 105 Enqueued; Outpt 1017 2; Sti ] /\
    debug_record s' = [60; 104; 60; 105].
Proof.
  apply (@ttywrite_appends_when_undisturbed sapc silence 3 0 [104; 105; 33] 2
           (with_queues [] [97] []) {| dvbaseport := 1016; dvdata := 0 |}).
  - reflexivity.
  - reflexivity.
  - simpl. lia.
  - vm_compute. discriminate.
  - lia.
Defined.

Lemma written_bytes_reach_the_line_witness :
  exists s1 s2 tr,
    @ttywrite sapc silence 3 0 [104; 105; 33] 3 (with_queues [] [97] []) = Ret 3 s1 /\
    @invocations sapc (length (contents (outQueue s1))) (uart 1016 2 0) 0 s1
    = Ret tt s2 /\
    trace s2 = tr /\
    written 1016 tr = [97; 104; 105; 33] /\
    contents (outQueue s2) = [].
Proof.
  apply (@written_bytes_reach_the_line sapc silence (uart 1016 2 0) 3 0
           [104; 105; 33] 3 (with_queues [] [97] [])
           {| dvbaseport := 1016; dvdata := 0 |}).
  - reflexivity.
  - reflexivity.
  - discriminate.
  - discriminate.
  - reflexivity.
  - simpl. lia.
  - vm_compute. discriminate.
  - lia.
  - reflexivity.
Defined.

Lemma ttywrite_returns_with_interrupts_on_witness :
  Z.testbit (eflags (masked [] [] [])) IF_BIT = false /\
  exists s',
    @ttywrite sapc silence 1 0 [97] 1 (masked [] [] []) = Ret 1 s' /\
    Z.testbit (eflags s') IF_BIT = true.
Proof.
  split; [reflexivity|].
  eassert (@ttywrite sapc silence 1 0 [97] 1 (masked [] [] []) = Ret 1 _) as E
    by (vm_compute; reflexivity).
  eexists. split; [exact E|].
  apply (@ttywrite_returns_with_interrupts_on sapc silence 1 0 [97] 1
           (masked [] [] []) 1 _); [lia | exact E].
Defined.

Lemma ttyread_masks_every_dequeue_witness :
  exists r s' tr,
    @ttyread sapc (typing [120; 121]) 3 0 [0; 0] 2 (with_queues [] [] [])
    = Ret r s' /\
    trace s' = tr /\
    masked_queue_ops 512 (foreground tr) = true /\
    eflags s' = 512.
Proof.
  eassert (@ttyread sapc (typing [120; 121]) 3 0 [0; 0] 2 (with_queues [] [] [])
           = Ret _ _) as E by (vm_compute; reflexivity).
  destruct (@ttyread_masks_every_dequeue sapc (typing [120; 121]) 3 0 [0; 0] 2
              (with_queues [] [] []) _ _ eq_refl E) as (tr & X & Mk & Ef).
  eexists _, _, tr. split; [exact E|]. auto.
Defined.

Lemma ttyread_starves_witness :
  @ttyread sapc (typing [121; 122]) 50 0 [0; 0] 2 (masked [120] [] []) = Spinning.
Proof.
  apply (@ttyread_starves_with_interrupts_masked sapc (typing [121; 122]) 50 0
           [0; 0] 2 (masked [120] [] [])).
  - reflexivity.
  - simpl. lia.
  - vm_compute. reflexivity.
Defined.

Lemma ttyinit_unknown_port_still_resets_witness :
  exists s',
    @ttyinit lost_port 0 (with_queues [120; 121] [97] []) = Ret tt s' /\
    line_queues 0 s' = (init_queue MAXBUF, init_queue MAXBUF, init_queue MAXBUF) /\
    debug_record s' = [] /\
    ttytab s' = ttytab (with_queues [120; 121] [97] []) /\
    eflags s' = eflags (with_queues [120; 121] [97] []).
Proof.
  apply (@ttyinit_unknown_port_still_resets lost_port 0
           (with_queues [120; 121] [97] []) {| dvbaseport := 1000; dvdata := 0 |}).
  - reflexivity.
  - discriminate.
  - discriminate.
Defined.

Lemma ttyread_takes_what_is_queued_witness :
  exists buf' s' tr,
    @ttyread sapc (typing [33]) 2 0 [0; 0; 9] 2 (with_queues [120; 121; 122] [] [])
    = Ret (2, buf') s' /\
    buf' = [120; 121; 9] /\
    trace s' = tr /\
    contents (inQueue s') = [122] ++ accepted InQ tr.
Proof.
  apply (@ttyread_takes_what_is_queued sapc (typing [33]) 2 0 [0; 0; 9] 2
           (with_queues [120; 121; 122] [] [])).
  - simpl. lia.
  - apply sapc_lines_ok.
  - vm_compute. discriminate.
  - lia.
Defined.

Lemma interim_receive_witness :
  exists s',
    @Interim.irqinthandc sapc (uart 1016 4 113) 0 (in_handler [] [111] [101])
    = Ret tt s' /\
    trace s' = map (pair Handler)
      [ Inpt 1018 4; PicEndInt; Inpt 1016 113; Enq InQ 113 Enqueued;
        Enq EchoQ 113 Enqueued; Outpt 1017 1 ] /\
    outQueue s' = outQueue (in_handler [] [111] [101]).
Proof.
  apply (@interim_receive_does_not_transmit sapc (uart 1016 4 113) 0
           (in_handler [] [111] [101]) {| dvbaseport := 1016; dvdata := 0 |}
           {| echoflag := 1 |}).
  - reflexivity.
  - reflexivity.
  - discriminate.
  - reflexivity.
Defined.

Lemma earlier_handler_echoes_witness :
  exists s' tr,
    @Earlier.irqinthandc sapc (uart 1016 2 113) 0 (in_handler [] [111] [])
    = Ret tt s' /\
    trace s' = tr /\
    take 4 tr = map (pair Handler)
      [Inpt 1018 2; PicEndInt; Inpt 1016 113; Outpt 1016 113] /\
    (Z.land 2 4 = 0 -> inQueue s' = inQueue (in_handler [] [111] [])).
Proof.
  apply (@earlier_handler_echoes_on_every_interrupt sapc (uart 1016 2 113) 0
           (in_handler [] [111] []) {| dvbaseport := 1016; dvdata := 0 |}
           {| echoflag := 1 |}).
  - reflexivity.
  - reflexivity.
  - discriminate.
Defined.

Lemma earlier_ttywrite_offers_once_witness :
  exists s' tr,
    @Earlier.ttywrite sapc silence 0 [97; 98] 2
      (with_queues [] [1; 2; 3; 4; 5; 6] []) = Ret 2 s' /\
    trace s' = tr /\
    offered OutQ (foreground tr) = [97; 98] /\
    accepted OutQ tr = [] /\
    masked_queue_ops 512 (foreground tr) = true.
Proof.
  eassert (@Earlier.ttywrite sapc silence 0 [97; 98] 2
             (with_queues [] [1; 2; 3; 4; 5; 6] []) = Ret 2 _) as E
    by (vm_compute; reflexivity).
  destruct (@earlier_ttywrite_offers_each_byte_once sapc silence 0 [97; 98] 2
              (with_queues [] [1; 2; 3; 4; 5; 6] []) _ _ eq_refl ltac:(lia) E)
    as (_ & tr & X & O & _ & Mk).
  simpl in X. subst tr.
  eexists _, _. split; [exact E|]. split; [reflexivity|].
  split; [exact O|]. split; [reflexivity|exact Mk].
Defined.

Lemma earlier_ttywrite_drops_witness :
  exists s',
    @Earlier.ttywrite sapc silence 0 [97; 98] 2
      (with_queues [] [1; 2; 3; 4; 5; 6] []) = Ret 2 s' /\
    outQueue s' = outQueue (with_queues [] [1; 2; 3; 4; 5; 6] []) /\
    trace s' = map (pair Foreground)
      [Cli; Enq OutQ 97 FULLQUE; Sti; Cli; Enq OutQ 98 FULLQUE; Sti].
Proof.
  apply (@earlier_ttywrite_drops_on_full_queue sapc silence 0 [97; 98] 2
           (with_queues [] [1; 2; 3; 4; 5; 6] [])
           {| dvbaseport := 1016; dvdata := 0 |}).
  - reflexivity.
  - reflexivity.
  - simpl. lia.
  - vm_compute. discriminate.
Defined.

Lemma earlier_ttyread_witness :
  exists s',
    @Earlier.ttyread sapc silence 0 [7; 8; 9] 3 (with_queues [120] [] [])
    = Ret (3, [120; 8; 9]) s' /\
    contents (inQueue s') = [].
Proof.
  apply (@earlier_ttyread_returns_without_waiting sapc silence 0 [7; 8; 9] 3
           (with_queues [120] [] []) {| dvbaseport := 1016; dvdata := 0 |}).
  - reflexivity.
  - reflexivity.
  - simpl. lia.
Defined.
